(** * Stapweekend password game: rule engine, progression and mini-game

    Shallow embedding of [src/App.tsx].  JavaScript strings are sequences
    of UTF-16 code units; the React component state is a record that the
    event handlers and the rule-evaluation effect transform. *)

From Stdlib Require Import ZArith NArith List String Ascii Bool Lia Znumtheory.
From Stdlib Require Import DecimalString Floats.
From Equations Require Import Equations.
From stdpp Require Import gmap gmultiset list.

Local Open Scope Z_scope.

(** ** JavaScript strings *)

Module JS.

(** A UTF-16 code unit and a JavaScript string. *)
Definition char16 : Type := N.
Definition jsstring : Type := list char16.

(** An ASCII literal of the source, code unit by code unit. *)
Fixpoint lit (s : string) : jsstring :=
  match s with
  | EmptyString => []
  | String a s' => N_of_ascii a :: lit s'
  end.

Definition char_eqb (a b : char16) : bool := N.eqb a b.

(** [a === b] on strings. *)
Fixpoint str_eqb (a b : jsstring) : bool :=
  match a, b with
  | [], [] => true
  | x :: a', y :: b' => char_eqb x y && str_eqb a' b'
  | _, _ => false
  end.

(** [s[i]]: [None] is [undefined]. *)
Definition charAt (s : jsstring) (i : nat) : option char16 := s !! i.

(** [a === b] where either side may be [undefined]. *)
Definition opt_char_eqb (a b : option char16) : bool :=
  match a, b with
  | Some x, Some y => char_eqb x y
  | None, None => true
  | _, _ => false
  end.

Fixpoint startsWith (needle hay : jsstring) : bool :=
  match needle, hay with
  | [], _ => true
  | _ :: _, [] => false
  | a :: needle', b :: hay' => char_eqb a b && startsWith needle' hay'
  end.

(** [hay.includes(needle)]. *)
Fixpoint includes (hay needle : jsstring) : bool :=
  startsWith needle hay ||
  match hay with
  | [] => false
  | _ :: hay' => includes hay' needle
  end.

(** [arr.includes(x)] on an array of strings. *)
Definition array_includes (arr : list jsstring) (x : jsstring) : bool :=
  existsb (str_eqb x) arr.

(** [in_range lo hi c]: the code unit lies between two ASCII characters. *)
Definition in_range (lo hi : ascii) (c : char16) : bool :=
  (N_of_ascii lo <=? c)%N && (c <=? N_of_ascii hi)%N.

Definition one_of (cs : string) (c : char16) : bool :=
  existsb (char_eqb c) (lit cs).

(** Character classes of the regular expressions in the rule catalog. *)
Definition class_upper : char16 -> bool := in_range "A" "Z".   (* [A-Z] *)
Definition class_digit : char16 -> bool := in_range "0" "9".   (* \d *)

(** The punctuation class of rule 3: the characters listed below, the
    backslash among them, and the double quote (code unit 34). *)
Definition class_special (c : char16) : bool :=
  one_of "!@#$%^&*()_+-=[]{};':\|,.<>/?" c || char_eqb c 34%N.

(** [\s]: the ECMAScript white space and line terminator code units. *)
Definition class_space (c : char16) : bool :=
  existsb (N.eqb c)
    [9; 10; 11; 12; 13; 32; 160; 5760; 8232; 8233; 8239; 8287; 12288; 65279]%N
  || ((8192 <=? c)%N && (c <=? 8202)%N).

(** [/[cls]/.test(s)]. *)
Definition test_class (cls : char16 -> bool) (s : jsstring) : bool :=
  existsb cls s.

(** [s.match(/[cls]/g)]: every code unit of the class, in order;
    [None] is the [null] returned when nothing matches. *)
Definition match_class (cls : char16 -> bool) (s : jsstring)
  : option (list jsstring) :=
  match List.filter cls s with
  | [] => None
  | cs => Some (map (fun c => [c]) cs)
  end.

(** [s.match(/[cls]+/g)].  The scan keeps the run read so far: greedy
    [+] takes every following code unit of the class, and the next
    match starts after the run. *)
Fixpoint scan_runs (cls : char16 -> bool) (run : jsstring) (s : jsstring)
  : list jsstring :=
  match s with
  | [] => match run with [] => [] | _ => [run] end
  | c :: s' =>
      if cls c then scan_runs cls (run ++ [c]) s'
      else match run with
           | [] => scan_runs cls [] s'
           | _ => run :: scan_runs cls [] s'
           end
  end.

Definition match_class_plus (cls : char16 -> bool) (s : jsstring)
  : option (list jsstring) :=
  match scan_runs cls [] s with
  | [] => None
  | ms => Some ms
  end.

(** [/^[cls]/.test(s)] and [/[cls]$/.test(s)]. *)
Definition test_first (cls : char16 -> bool) (s : jsstring) : bool :=
  match s with
  | [] => false
  | c :: _ => cls c
  end.

Definition test_last (cls : char16 -> bool) (s : jsstring) : bool :=
  match last s with
  | None => false
  | Some c => cls c
  end.

(** [parseInt(d)] on a one-digit string matched by [\d]. *)
Definition parseInt_digit (d : jsstring) : Z :=
  match d with
  | [c] => Z.of_N c - 48
  | _ => 0
  end.

(** [n.toString()] for an integer-valued number. *)
Definition toString (n : Z) : jsstring :=
  lit (NilZero.string_of_int (Z.to_int n)).

(** [s.padStart(2, '0')]. *)
Definition padStart2 (s : jsstring) : jsstring :=
  match s with
  | [] => lit "00"
  | [c] => [N_of_ascii "0"; c]
  | _ => s
  end.

End JS.
Import JS.


(** ** The host environment

    The Unicode case conversions of [String.prototype] and the time zone
    of the machine the page runs on are not part of the program: they are
    the three components of a host.  [getTimezoneOffset h t] is the offset
    in minutes (UTC minus local time) in force at the instant [t], given in
    milliseconds since the epoch. *)

Record Host : Type := {
  toLowerCase : jsstring -> jsstring;
  toUpperCase : jsstring -> jsstring;
  getTimezoneOffset : Z -> Z
}.

(** Every [new Date()] reads the clock.  Rule 15 reads it twice in one
    call: once inside [getCurrentTimeGMT2] and once in the validator. *)
Record Clock : Type := {
  nowInGetCurrentTime : Z;
  nowInValidator : Z
}.

Module Date.

(** A [Date] holds a time value in milliseconds, or is an Invalid Date
    ([None]) when the value is NaN or out of range. *)
Definition t : Type := option Z.

Definition maxTime : Z := 8640000000000000.

Definition make (v : option Z) : t :=
  match v with
  | Some ms => if Z.abs ms <=? maxTime then Some ms else None
  | None => None
  end.

Definition getTime (d : t) : option Z := d.

Definition localTime (h : Host) (ms : Z) : Z :=
  ms - getTimezoneOffset h ms * 60000.

Definition getHours (h : Host) (d : t) : option Z :=
  match d with
  | Some ms => Some ((localTime h ms / 3600000) mod 24)
  | None => None
  end.

Definition getMinutes (h : Host) (d : t) : option Z :=
  match d with
  | Some ms => Some ((localTime h ms / 60000) mod 60)
  | None => None
  end.

(** [x.toString()] where [None] is NaN. *)
Definition numberToString (x : option Z) : jsstring :=
  match x with
  | Some v => toString v
  | None => lit "NaN"
  end.

(** [`${d.getHours().toString().padStart(2,'0')}:${d.getMinutes()...}`] *)
Definition formatHHMM (h : Host) (d : t) : jsstring :=
  padStart2 (numberToString (getHours h d)) ++ lit ":" ++
  padStart2 (numberToString (getMinutes h d)).

End Date.

Definition getCurrentTimeGMT2 (h : Host) (now : Z) : jsstring :=
  let utc := now + getTimezoneOffset h now * 60000 in
  let gmt2 := Date.make (Some (utc + 2 * 60 * 60 * 1000)) in
  Date.formatHHMM h gmt2.

(** ** Data model *)

Record MathProblem : Type := mkProblem {
  expression : jsstring;
  answer : Z
}.

Record LiveData : Type := {
  dayOfYear : Z;
  dayOfWeek : Z;
  zodiacSymbol : jsstring;
  moonPhase : jsstring;
  temperature : Z;
  wordleWord : jsstring;
  mathProblem : MathProblem;
  chessMove : jsstring;
  chessPosition : gmap nat jsstring;
  countryCode : jsstring;
  countryName : jsstring;
  streetViewUrl : jsstring
}.

Record WordleState : Type := {
  guesses : list jsstring;
  currentGuess : jsstring;
  gameWon : bool;
  gameOver : bool;
  maxGuesses : nat
}.

(** The fields of a rule that the engine reads.  [description], [tip] and
    the [show...] flags are only rendered. *)
Record Rule : Type := {
  id : nat;
  validator : jsstring -> bool;
  requiresLiveData : bool;
  validationFeedback : option (jsstring -> option jsstring)
}.

(** ** Rule 14: Roman numerals *)

Definition class_roman : char16 -> bool := one_of "IVXLCDM".

(** The object literal [romanNumerals]; [None] is [undefined]. *)
Definition romanNumerals (c : option char16) : option Z :=
  match c with
  | None => None
  | Some c =>
      if char_eqb c (N_of_ascii "I") then Some 1
      else if char_eqb c (N_of_ascii "V") then Some 5
      else if char_eqb c (N_of_ascii "X") then Some 10
      else if char_eqb c (N_of_ascii "L") then Some 50
      else if char_eqb c (N_of_ascii "C") then Some 100
      else if char_eqb c (N_of_ascii "D") then Some 500
      else if char_eqb c (N_of_ascii "M") then Some 1000
      else None
  end.

(** The inner [for] loop of the validator, on the part of the match that
    is still to be read.  [value] is [None] once it has become NaN, which
    happens when [current] is [undefined]; an [undefined] or absent [next]
    is falsy and takes the [else] branch. *)
Fixpoint romanLoop (value : option Z) (rest : jsstring) : option Z :=
  match rest with
  | [] => value
  | c :: rest1 =>
      let current := romanNumerals (Some c) in
      let next := romanNumerals (head rest1) in
      match current, next, rest1 with
      | Some cur, Some nxt, _ :: rest2 =>
          if cur <? nxt
          then romanLoop (v ← value; Some (v + (nxt - cur))) rest2
          else romanLoop (v ← value; Some (v + cur)) rest1
      | Some cur, _, _ => romanLoop (v ← value; Some (v + cur)) rest1
      | None, _, _ => romanLoop None rest1
      end
  end.

Definition romanValue (m : jsstring) : option Z := romanLoop (Some 0) m.

(** [value === 35]. *)
Definition is35 (value : option Z) : bool :=
  match value with
  | Some v => v =? 35
  | None => false
  end.

Definition rule14_validator (pwd : jsstring) : bool :=
  match match_class_plus class_roman pwd with
  | None => false
  | Some romanMatches => existsb (fun m => is35 (romanValue m)) romanMatches
  end.

(** ** Rule 25: prime length *)

(** A value together with the proof that it is the value of [x]; the loop
    below uses it to remember the outcome of its guard. *)
Definition inspect {A : Type} (x : A) : {y : A | x = y} := exist _ x eq_refl.

(** The loop [for (let i = 2; i <= Math.sqrt(length); i++)].  For a string
    length, an integer far below 2^52, the floating-point test
    [i <= Math.sqrt(length)] holds exactly when [i * i <= length]. *)
Equations? primeLoop (i len : nat) : bool by wf (S len - i)%nat lt :=
  primeLoop i len with inspect (i * i <=? len)%nat => {
    | exist _ true Hle =>
        if (len mod i =? 0)%nat then false else primeLoop (S i) len
    | exist _ false _ => true }.
Proof.
  apply Nat.leb_le in Hle. nia.
Qed.

Definition rule25_validator (pwd : jsstring) : bool :=
  let len := length pwd in
  if (len <? 2)%nat then false else primeLoop 2 len.

(** ** Rule 22: chess notation feedback

    The pattern [/[KQRBN]?[a-h]?[1-8]?x?[a-h][1-8][\+#]?/g] is a sequence
    of single-character items, optional or mandatory.  A backtracking
    matcher tries to consume an optional item before it tries to skip it. *)

Inductive RegexItem : Type :=
| Optional (cls : char16 -> bool)
| Mandatory (cls : char16 -> bool).

(** The match of the item sequence at the start of [s], if there is one. *)
Fixpoint matchItems (items : list RegexItem) (s : jsstring) : option jsstring :=
  match items with
  | [] => Some []
  | Mandatory cls :: items' =>
      match s with
      | c :: s' => if cls c then cons c <$> matchItems items' s' else None
      | [] => None
      end
  | Optional cls :: items' =>
      match s with
      | c :: s' =>
          if cls c then
            match matchItems items' s' with
            | Some m => Some (c :: m)
            | None => matchItems items' s
            end
          else matchItems items' s
      | [] => matchItems items' s
      end
  end.

(** [s.match(re)] for a global pattern: the matches from left to right.
    After a match the search resumes behind it, [skip] counting the code
    units of the match still to be passed over; an empty match makes the
    search advance by one. *)
Fixpoint scanItems (items : list RegexItem) (skip : nat) (s : jsstring)
  : list jsstring :=
  match s with
  | [] =>
      match skip, matchItems items [] with
      | O, Some m => [m]
      | _, _ => []
      end
  | _ :: s' =>
      match skip with
      | S k => scanItems items k s'
      | O =>
          match matchItems items s with
          | Some m => m :: scanItems items (length m - 1) s'
          | None => scanItems items 0 s'
          end
      end
  end.

Definition match_items (items : list RegexItem) (s : jsstring)
  : option (list jsstring) :=
  match scanItems items 0 s with
  | [] => None
  | ms => Some ms
  end.

Definition chessNotationPattern : list RegexItem :=
  [ Optional (one_of "KQRBN");
    Optional (in_range "a" "h");
    Optional (in_range "1" "8");
    Optional (one_of "x");
    Mandatory (in_range "a" "h");
    Mandatory (in_range "1" "8");
    Optional (one_of "+#") ].

(** ** The rule catalog *)

Definition months : list jsstring :=
  map lit
    [ "januari"; "februari"; "maart"; "april"; "mei"; "juni";
      "juli"; "augustus"; "september"; "oktober"; "november"; "december" ]%string.

Definition elements : list jsstring :=
  map lit [
    "He"; "Li"; "Be"; "Ne"; "Na"; "Mg"; "Al"; "Si"; "Cl"; "Ar"; "Ca"; "Sc";
    "Ti"; "Cr"; "Mn"; "Fe"; "Co"; "Ni"; "Cu"; "Zn"; "Ga"; "Ge"; "As"; "Se";
    "Br"; "Kr"; "Rb"; "Sr"; "Zr"; "Nb"; "Mo"; "Tc"; "Ru"; "Rh"; "Pd"; "Ag";
    "Cd"; "In"; "Sn"; "Sb"; "Te"; "Xe"; "Cs"; "Ba"; "La"; "Ce"; "Pr"; "Nd";
    "Pm"; "Sm"; "Eu"; "Gd"; "Tb"; "Dy"; "Ho"; "Er"; "Tm"; "Yb"; "Lu"; "Hf";
    "Ta"; "Re"; "Os"; "Ir"; "Pt"; "Au"; "Hg"; "Tl"; "Pb"; "Bi"; "Po"; "At";
    "Rn"; "Fr"; "Ra"; "Ac"; "Th"; "Pa"; "Np"; "Pu"; "Am"; "Cm"; "Bk"; "Cf";
    "Es"; "Fm"; "Md"; "No"; "Lr"; "Rf"; "Db"; "Sg"; "Bh"; "Hs"; "Mt"; "Ds";
    "Rg"; "Cn"; "Nh"; "Fl"; "Mc"; "Lv"; "Ts"; "Og" ]%string.

Definition colors : list jsstring :=
  map lit
    [ "rood"; "blauw"; "groen"; "geel"; "oranje"; "paars"; "roze"; "zwart";
      "wit"; "bruin"; "grijs" ]%string.

(** The fourth and fifth names end in the code units 8730 and 180, as the
    literals stand in the source file. *)
Definition countries : list jsstring :=
  [ lit "nederland"; lit "duitsland"; lit "frankrijk";
    lit "belgi" ++ [8730; 180]%N; lit "itali" ++ [8730; 180]%N;
    lit "spanje"; lit "portugal" ].

(** [arr.some(x => hay.includes(x))]. *)
Definition some_included (arr : list jsstring) (hay : jsstring) : bool :=
  existsb (fun x => includes hay x) arr.

Definition rule7_validator (pwd : jsstring) : bool :=
  match match_class class_digit pwd with
  | None => false
  | Some digits =>
      let sum := fold_left (fun acc digit => acc + parseInt_digit digit) digits 0 in
      sum =? 50
  end.

Definition rule15_validator (h : Host) (clock : Clock) (pwd : jsstring) : bool :=
  let time := getCurrentTimeGMT2 h (nowInGetCurrentTime clock) in
  let now := nowInValidator clock in
  let utc := now + getTimezoneOffset h now * 60000 in
  let gmt2 := Date.make (Some (utc + 2 * 60 * 60 * 1000)) in
  let nextMinute := Date.make (v ← Date.getTime gmt2; Some (v + 60000)) in
  let nextTime := Date.formatHHMM h nextMinute in
  includes pwd time || includes pwd nextTime.

Definition rule21_validator (h : Host) (liveData : option LiveData)
    (pwd : jsstring) : bool :=
  match liveData with
  | Some ld => includes (toLowerCase h pwd) (toLowerCase h (countryName ld))
  | None => false
  end.

Definition rule21_feedback (h : Host) (liveData : option LiveData)
    (pwd : jsstring) : option jsstring :=
  match liveData with
  | None => None
  | Some ld =>
      let foundCountries :=
        List.filter (fun country => includes (toLowerCase h pwd) country) countries in
      match foundCountries with
      | first :: _ =>
          if negb (array_includes foundCountries (toLowerCase h (countryName ld)))
          then Some (first ++ lit " (Verkeerd land)")
          else None
      | [] => None
      end
  end.

Definition rule22_feedback (liveData : option LiveData) (pwd : jsstring)
  : option jsstring :=
  match liveData with
  | None => None
  | Some ld =>
      match match_items chessNotationPattern pwd with
      | Some chessMatches =>
          let foundMoves :=
            List.filter (fun move => negb (str_eqb move (chessMove ld))) chessMatches in
          match foundMoves with
          | first :: _ => Some (first ++ lit " (Illegale zet)")
          | [] => None
          end
      | None => None
      end
  end.

Definition rule24_validator (pwd : jsstring) : bool :=
  let capitals := length (default [] (match_class class_upper pwd)) in
  let digits := length (default [] (match_class class_digit pwd)) in
  (capitals =? digits)%nat && (0 <? capitals)%nat.

(** [liveData ? pwd.includes(f(liveData)) : false]. *)
Definition includesLive (liveData : option LiveData) (f : LiveData -> jsstring)
    (pwd : jsstring) : bool :=
  match liveData with
  | Some ld => includes pwd (f ld)
  | None => false
  end.

Definition mkRule (id : nat) (validator : jsstring -> bool) : Rule :=
  {| id := id; validator := validator; requiresLiveData := false;
     validationFeedback := None |}.

Definition mkLiveRule (id : nat) (validator : jsstring -> bool)
    (feedback : option (jsstring -> option jsstring)) : Rule :=
  {| id := id; validator := validator; requiresLiveData := true;
     validationFeedback := feedback |}.

(** The array [rules].  It is rebuilt on every render, so the validators
    close over the current [liveData]; rule 15 reads the clock. *)
Definition rules (h : Host) (clock : Clock) (liveData : option LiveData)
  : list Rule :=
  [ mkRule 1 (fun pwd => (8 <=? length pwd)%nat);
    mkRule 2 (fun pwd => test_class class_upper pwd);
    mkRule 3 (fun pwd => test_class class_special pwd);
    mkRule 4 (fun pwd => negb (test_class class_space pwd));
    mkRule 5 (fun pwd => test_class class_digit pwd);
    mkRule 6 (fun pwd => some_included months (toLowerCase h pwd));
    mkRule 7 rule7_validator;
    mkLiveRule 8 (includesLive liveData (fun ld => toString (dayOfYear ld))) None;
    mkLiveRule 9 (includesLive liveData (fun ld => toString (dayOfWeek ld))) None;
    mkRule 10 (fun pwd => (0 <? length pwd)%nat
                          && negb (test_first class_digit pwd)
                          && negb (test_last class_digit pwd));
    mkLiveRule 11 (includesLive liveData zodiacSymbol) None;
    mkLiveRule 12 (includesLive liveData moonPhase) None;
    mkRule 13 (fun pwd => some_included elements pwd);
    mkRule 14 rule14_validator;
    mkRule 15 (rule15_validator h clock);
    mkRule 16 (fun pwd => includes (toLowerCase h pwd) (lit "geest"));
    mkRule 17 (fun pwd => includes (toLowerCase h pwd) (lit "tomorrowland"));
    mkRule 18 (fun pwd => some_included colors (toLowerCase h pwd));
    mkRule 19 (fun pwd => includes pwd (lit "64"));
    mkRule 20 (fun pwd => includes (toLowerCase h pwd) (lit "verkeerde"));
    mkLiveRule 21 (rule21_validator h liveData) (Some (rule21_feedback h liveData));
    mkLiveRule 22 (includesLive liveData chessMove) (Some (rule22_feedback liveData));
    mkLiveRule 23 (includesLive liveData (fun ld => toString (answer (mathProblem ld)))) None;
    mkRule 24 rule24_validator;
    mkRule 25 rule25_validator ].

(** ** The evaluation pass

    The body of the [rules.forEach] callback in the rule-evaluation effect.
    Besides the two values the effect builds, the accumulator keeps a log
    of the calls made to validators and feedback functions; the log is
    not program state, it records which functions the pass invokes. *)

Inductive Call : Type :=
| CallValidator (ruleId : nat)
| CallFeedback (ruleId : nat).

Record Evaluation : Type := {
  newCompletedRules : gset nat;
  newValidationFeedback : gmap nat jsstring;
  calls : list Call
}.

Definition emptyEvaluation : Evaluation :=
  {| newCompletedRules := ∅; newValidationFeedback := ∅; calls := [] |}.

Definition evaluateRule (liveData : option LiveData) (password : jsstring)
    (acc : Evaluation) (rule : Rule) : Evaluation :=
  if negb (requiresLiveData rule) || bool_decide (is_Some liveData) then
    if validator rule password then
      {| newCompletedRules := {[ id rule ]} ∪ newCompletedRules acc;
         newValidationFeedback := newValidationFeedback acc;
         calls := calls acc ++ [CallValidator (id rule)] |}
    else
      match validationFeedback rule with
      | Some feedbackFn =>
          {| newCompletedRules := newCompletedRules acc;
             newValidationFeedback :=
               match feedbackFn password with
               | Some (c :: feedback) =>
                   <[ id rule := c :: feedback ]> (newValidationFeedback acc)
               | _ => newValidationFeedback acc
               end;
             calls := calls acc ++ [CallValidator (id rule); CallFeedback (id rule)] |}
      | None =>
          {| newCompletedRules := newCompletedRules acc;
             newValidationFeedback := newValidationFeedback acc;
             calls := calls acc ++ [CallValidator (id rule)] |}
      end
  else acc.

Definition evaluateRules (rs : list Rule) (liveData : option LiveData)
    (password : jsstring) : Evaluation :=
  fold_left (evaluateRule liveData password) rs emptyEvaluation.

Definition evaluate (h : Host) (clock : Clock) (liveData : option LiveData)
    (password : jsstring) : Evaluation :=
  evaluateRules (rules h clock liveData) liveData password.

(** ** Progression

    The loop [for (let i = 1; i <= rules.length; i++)] with its [break];
    [remaining] counts the iterations left before [i] exceeds
    [rules.length]. *)
Fixpoint visibleLoop (completed : gset nat) (i remaining newMaxVisible : nat)
  : nat :=
  match remaining with
  | O => newMaxVisible
  | S remaining' =>
      if bool_decide (i ∈ completed)
      then visibleLoop completed (i + 1) remaining' (i + 1)
      else newMaxVisible
  end.

(** The new value of [maxVisibleRule], from the previous one, the password
    and the freshly computed set; [rulesLength] is [rules.length]. *)
Definition updateMaxVisibleRule (rulesLength : nat) (prev : nat)
    (password : jsstring) (completed : gset nat) : nat :=
  if (0 <? length password)%nat then
    let newMaxVisible := visibleLoop completed 1 rulesLength 1 in
    let newMaxVisible := Nat.min newMaxVisible rulesLength in
    Nat.max prev newMaxVisible
  else 0%nat.

(** ** The word-guessing mini-game *)

(** The four class strings [getLetterStatus] returns. *)
Inductive LetterStatus : Type :=
| BgGray300      (* 'bg-gray-300': no live data *)
| BgGreen500     (* 'bg-green-500 text-white' *)
| BgYellow500    (* 'bg-yellow-500 text-white' *)
| BgGray400.     (* 'bg-gray-400 text-white' *)

(** [for (let i = from; i < from + n; i++) if (test(i)) counter++]. *)
Definition countLoop (from n : nat) (test : nat -> bool) : nat :=
  length (List.filter test (seq from n)).

(** [getLetterStatus(letter, position, guess)]; the parameter [letter] is
    never read.  An [undefined] argument of [includes] is converted to the
    string 'undefined'. *)
Definition getLetterStatus (h : Host) (liveData : option LiveData)
    (position : nat) (guess : jsstring) : LetterStatus :=
  match liveData with
  | None => BgGray300
  | Some ld =>
      let targetWord := toUpperCase h (wordleWord ld) in
      let guessUpper := toUpperCase h guess in
      let letter := charAt guessUpper position in
      if opt_char_eqb letter (charAt targetWord position) then BgGreen500
      else if includes targetWord
                (match letter with Some c => [c] | None => lit "undefined" end)
      then
        let letterCount :=
          length (List.filter (fun l => opt_char_eqb (Some l) letter) targetWord) in
        let correctlyPlaced :=
          countLoop 0 (length guessUpper) (fun i =>
            opt_char_eqb (charAt guessUpper i) letter
            && opt_char_eqb (charAt targetWord i) (charAt guessUpper i)) in
        let appearedBefore :=
          countLoop 0 position (fun i =>
            opt_char_eqb (charAt guessUpper i) letter
            && negb (opt_char_eqb (charAt targetWord i) (charAt guessUpper i))) in
        if (correctlyPlaced + appearedBefore <? letterCount)%nat
        then BgYellow500
        else BgGray400
      else BgGray400
  end.

(** One row of the grid: the five cells of a recorded guess. *)
Definition rowStatus (h : Host) (liveData : option LiveData) (guess : jsstring)
  : list LetterStatus :=
  map (fun colIndex => getLetterStatus h liveData colIndex guess) (seq 0 5).

(** What the dictionary service answers.  An entry makes the callback of
    [data.some] throw when the entry is [null] or its [woord] is a truthy
    value without [toLowerCase]; a missing or empty [woord] is falsy. *)
Inductive Entry : Type :=
| EntryThrows
| EntryFalsy
| EntryWoord (woord : jsstring).

Inductive FetchResult : Type :=
| FetchThrows                           (* fetch or response.json() rejects *)
| FetchNotArray                         (* the JSON value is not an array *)
| FetchArray (data : list Entry).

(** [data.some(entry => entry.woord && entry.woord.toLowerCase() === ...)];
    [None] when the callback throws. *)
Fixpoint someWoord (h : Host) (word : jsstring) (data : list Entry) : option bool :=
  match data with
  | [] => Some false
  | EntryThrows :: _ => None
  | EntryFalsy :: data' => someWoord h word data'
  | EntryWoord [] :: data' => someWoord h word data'
  | EntryWoord woord :: data' =>
      if str_eqb (toLowerCase h woord) (toLowerCase h word)
      then Some true
      else someWoord h word data'
  end.

Definition checkDutchWord (h : Host) (response : FetchResult) (word : jsstring)
  : bool :=
  match response with
  | FetchThrows => false
  | FetchNotArray => false
  | FetchArray data => default false (someWoord h word data)
  end.

Definition wordleErrorMessage : jsstring :=
  lit "Dit is geen geldig Nederlands woord volgens woordenlijst.org".

Definition initialWordleState : WordleState :=
  {| guesses := []; currentGuess := []; gameWon := false; gameOver := false;
     maxGuesses := 6 |}.

(** ** Component state *)

Module State.

Record t : Type := {
  password : jsstring;
  completedRules : gset nat;
  maxVisibleRule : nat;
  showPassword : bool;
  liveData : option LiveData;
  isLoadingData : bool;
  gameComplete : bool;
  validationFeedback : gmap nat jsstring;
  wordleState : WordleState;
  wordleError : jsstring;
  wordrowCompleted : bool
}.

(** The initial values of the [useState] hooks. *)
Definition init : t :=
  {| password := []; completedRules := ∅; maxVisibleRule := 0;
     showPassword := false; liveData := None; isLoadingData := true;
     gameComplete := false; validationFeedback := ∅;
     wordleState := initialWordleState; wordleError := [];
     wordrowCompleted := false |}.

(** The state setters of the [useState] hooks. *)
Definition setPassword (v : jsstring) (st : t) : t :=
  {| password := v;
     completedRules := completedRules st;
     maxVisibleRule := maxVisibleRule st;
     showPassword := showPassword st;
     liveData := liveData st;
     isLoadingData := isLoadingData st;
     gameComplete := gameComplete st;
     validationFeedback := validationFeedback st;
     wordleState := wordleState st;
     wordleError := wordleError st;
     wordrowCompleted := wordrowCompleted st |}.

Definition setCompletedRules (v : gset nat) (st : t) : t :=
  {| password := password st;
     completedRules := v;
     maxVisibleRule := maxVisibleRule st;
     showPassword := showPassword st;
     liveData := liveData st;
     isLoadingData := isLoadingData st;
     gameComplete := gameComplete st;
     validationFeedback := validationFeedback st;
     wordleState := wordleState st;
     wordleError := wordleError st;
     wordrowCompleted := wordrowCompleted st |}.

Definition setMaxVisibleRule (v : nat) (st : t) : t :=
  {| password := password st;
     completedRules := completedRules st;
     maxVisibleRule := v;
     showPassword := showPassword st;
     liveData := liveData st;
     isLoadingData := isLoadingData st;
     gameComplete := gameComplete st;
     validationFeedback := validationFeedback st;
     wordleState := wordleState st;
     wordleError := wordleError st;
     wordrowCompleted := wordrowCompleted st |}.

Definition setShowPassword (v : bool) (st : t) : t :=
  {| password := password st;
     completedRules := completedRules st;
     maxVisibleRule := maxVisibleRule st;
     showPassword := v;
     liveData := liveData st;
     isLoadingData := isLoadingData st;
     gameComplete := gameComplete st;
     validationFeedback := validationFeedback st;
     wordleState := wordleState st;
     wordleError := wordleError st;
     wordrowCompleted := wordrowCompleted st |}.

Definition setLiveData (v : option LiveData) (st : t) : t :=
  {| password := password st;
     completedRules := completedRules st;
     maxVisibleRule := maxVisibleRule st;
     showPassword := showPassword st;
     liveData := v;
     isLoadingData := isLoadingData st;
     gameComplete := gameComplete st;
     validationFeedback := validationFeedback st;
     wordleState := wordleState st;
     wordleError := wordleError st;
     wordrowCompleted := wordrowCompleted st |}.

Definition setIsLoadingData (v : bool) (st : t) : t :=
  {| password := password st;
     completedRules := completedRules st;
     maxVisibleRule := maxVisibleRule st;
     showPassword := showPassword st;
     liveData := liveData st;
     isLoadingData := v;
     gameComplete := gameComplete st;
     validationFeedback := validationFeedback st;
     wordleState := wordleState st;
     wordleError := wordleError st;
     wordrowCompleted := wordrowCompleted st |}.

Definition setGameComplete (v : bool) (st : t) : t :=
  {| password := password st;
     completedRules := completedRules st;
     maxVisibleRule := maxVisibleRule st;
     showPassword := showPassword st;
     liveData := liveData st;
     isLoadingData := isLoadingData st;
     gameComplete := v;
     validationFeedback := validationFeedback st;
     wordleState := wordleState st;
     wordleError := wordleError st;
     wordrowCompleted := wordrowCompleted st |}.

Definition setValidationFeedback (v : gmap nat jsstring) (st : t) : t :=
  {| password := password st;
     completedRules := completedRules st;
     maxVisibleRule := maxVisibleRule st;
     showPassword := showPassword st;
     liveData := liveData st;
     isLoadingData := isLoadingData st;
     gameComplete := gameComplete st;
     validationFeedback := v;
     wordleState := wordleState st;
     wordleError := wordleError st;
     wordrowCompleted := wordrowCompleted st |}.

Definition setWordleState (v : WordleState) (st : t) : t :=
  {| password := password st;
     completedRules := completedRules st;
     maxVisibleRule := maxVisibleRule st;
     showPassword := showPassword st;
     liveData := liveData st;
     isLoadingData := isLoadingData st;
     gameComplete := gameComplete st;
     validationFeedback := validationFeedback st;
     wordleState := v;
     wordleError := wordleError st;
     wordrowCompleted := wordrowCompleted st |}.

Definition setWordleError (v : jsstring) (st : t) : t :=
  {| password := password st;
     completedRules := completedRules st;
     maxVisibleRule := maxVisibleRule st;
     showPassword := showPassword st;
     liveData := liveData st;
     isLoadingData := isLoadingData st;
     gameComplete := gameComplete st;
     validationFeedback := validationFeedback st;
     wordleState := wordleState st;
     wordleError := v;
     wordrowCompleted := wordrowCompleted st |}.

Definition setWordrowCompleted (v : bool) (st : t) : t :=
  {| password := password st;
     completedRules := completedRules st;
     maxVisibleRule := maxVisibleRule st;
     showPassword := showPassword st;
     liveData := liveData st;
     isLoadingData := isLoadingData st;
     gameComplete := gameComplete st;
     validationFeedback := validationFeedback st;
     wordleState := wordleState st;
     wordleError := wordleError st;
     wordrowCompleted := v |}.

End State.

(** ** Session context regeneration *)

Definition validDutchWords : list jsstring :=
  map lit [
      "HUIS"; "BOOM"; "WATER"; "LICHT"; "GROEN"; "ZWART"; "ROOD"; "BLAUW";
      "GEEL"; "GROOT"; "KLEIN"; "MOOI"; "LIEF"; "GOED"; "SLECHT"; "NIEUW";
      "OUD"; "WARM"; "KOUD"; "HARD"; "ZACHT"; "SNEL"; "TRAAG"; "HOOG";
      "LAAG"; "BREED"; "SMAL"; "LANG"; "KORT"; "DICHT"; "OPEN"; "LEEG";
      "VOL"; "STIL"; "LUID"; "ZOET"; "ZUUR"; "ZOUT"; "BITTER"; "SCHERP";
      "BOT"; "GLAD"; "ROUW"; "DROOG"; "NAT"; "SCHOON"; "VUIL"; "RIJK";
      "ARM"; "DUUR" ]%string.

Record Location : Type := mkLocation {
  code : jsstring;
  name : jsstring;
  locationStreetViewUrl : jsstring
}.

Definition locations : list Location :=
  [
    mkLocation (lit "NL") (lit "nederland")
      (lit "https://www.google.com/maps/embed?pb=!4v1750161674270!6m8!1m7!1sCAoSLEFGMVFpcE5fVjBfSGVqVGVqVGVqVGVqVGVqVGVqVGVqVGVqVGVqVGVqVGVq!2m2!1d52.3676!2d4.9041!3f0!4f0!5f0.4820865974627469!6i1");
    mkLocation (lit "DE") (lit "duitsland")
      (lit "https://www.google.com/maps/embed?pb=!4v1750161674271!6m8!1m7!1sCAoSLEFGMVFpcE5fVjBfSGVqVGVqVGVqVGVqVGVqVGVqVGVqVGVqVGVqVGVqVGVq!2m2!1d52.5200!2d13.4050!3f0!4f0!5f0.4820865974627469!6i1");
    mkLocation (lit "FR") (lit "frankrijk")
      (lit "https://www.google.com/maps/embed?pb=!4v1750161674272!6m8!1m7!1sCAoSLEFGMVFpcE5fVjBfSGVqVGVqVGVqVGVqVGVqVGVqVGVqVGVqVGVqVGVqVGVq!2m2!1d48.8566!2d2.3522!3f0!4f0!5f0.4820865974627469!6i1");
    mkLocation (lit "BE") (lit "belgi" ++ [8730; 180]%N)
      (lit "https://www.google.com/maps/embed?pb=!4v1750161674270!6m8!1m7!1sPObmoWuv4YsRK7s8AA3b0w!2m2!1d50.84772347040428!2d4.357206757549814!3f144.22676!4f0!5f0.4820865974627469!6i1");
    mkLocation (lit "IT") (lit "itali" ++ [8730; 180]%N)
      (lit "https://www.google.com/maps/embed?pb=!4v1750161674273!6m8!1m7!1sCAoSLEFGMVFpcE5fVjBfSGVqVGVqVGVqVGVqVGVqVGVqVGVqVGVqVGVqVGVqVGVq!2m2!1d41.9028!2d12.4964!3f0!4f0!5f0.4820865974627469!6i1");
    mkLocation (lit "ES") (lit "spanje")
      (lit "https://www.google.com/maps/embed?pb=!4v1750161674274!6m8!1m7!1sCAoSLEFGMVFpcE5fVjBfSGVqVGVqVGVqVGVqVGVqVGVqVGVqVGVqVGVqVGVqVGVq!2m2!1d40.4168!2d-3.7038!3f0!4f0!5f0.4820865974627469!6i1");
    mkLocation (lit "PT") (lit "portugal")
      (lit "https://www.google.com/maps/embed?pb=!4v1750161674275!6m8!1m7!1sCAoSLEFGMVFpcE5fVjBfSGVqVGVqVGVqVGVqVGVqVGVqVGVqVGVqVGVqVGVqVGVq!2m2!1d38.7223!2d-9.1393!3f0!4f0!5f0.4820865974627469!6i1") ].

(** The expressions hold the code units of the source file as it stands. *)
Definition problems : list MathProblem :=
  [
    mkProblem (lit "(15 " ++ [8730; 243]%N ++ lit " 2) - (20 + 6)") 4;
    mkProblem ([8218; 224; 246]%N ++ lit "36 - 2") 4;
    mkProblem (lit "(3" ++ [172; 8804]%N ++ lit " " ++ [8730; 243]%N ++ lit " 2) - 14") 4;
    mkProblem (lit "(48 " ++ [8730; 8721]%N ++ lit " 12) + 0") 4;
    mkProblem (lit "(7 " ++ [8730; 243]%N ++ lit " 3) - 17") 4;
    mkProblem (lit "(8 " ++ [8730; 8721]%N ++ lit " 2) " ++ [8730; 243]%N ++ lit " 1") 4;
    mkProblem (lit "(5 + 3) " ++ [8730; 8721]%N ++ lit " 2") 4 ].

(** [arr[Math.floor(Math.random() * arr.length)]].  [Math.random()] lies
    in the interval from 0 to 1, 1 excluded, so the index is one of
    0 .. [arr.length - 1]; an outcome is given by a natural number [draw],
    read modulo [arr.length]. *)
Definition pickRandom {A : Type} (draw : nat) (arr : list A) (dflt : A) : A :=
  nth (draw mod length arr) arr dflt.

(** What a refresh obtains from outside: the temperature returned by
    [fetchWeatherData] and the three random draws. *)
Record RefreshInputs : Type := {
  fetchedTemperature : Z;
  locationDraw : nat;
  wordDraw : nat;
  problemDraw : nat
}.

(** The object passed to [setLiveData] by [handleRefreshData]. *)
Definition refreshedLiveData (inputs : RefreshInputs) (liveData : LiveData)
  : LiveData :=
  let temperature := fetchedTemperature inputs in
  let location :=
    pickRandom (locationDraw inputs) locations (mkLocation [] [] []) in
  let fiveLetterWords :=
    List.filter (fun word => (length word =? 5)%nat) validDutchWords in
  let wordleWord := pickRandom (wordDraw inputs) fiveLetterWords [] in
  let mathProblem := pickRandom (problemDraw inputs) problems (mkProblem [] 0) in
  {| dayOfYear := dayOfYear liveData;
     dayOfWeek := dayOfWeek liveData;
     zodiacSymbol := zodiacSymbol liveData;
     moonPhase := moonPhase liveData;
     temperature := temperature;
     wordleWord := wordleWord;
     mathProblem := mathProblem;
     chessMove := chessMove liveData;
     chessPosition := chessPosition liveData;
     countryCode := code location;
     countryName := name location;
     streetViewUrl := locationStreetViewUrl location |}.

(** ** Event handlers and the rule-evaluation effect *)

(** [handleRefreshData]: the click and the body of its timer callback. *)
Definition handleRefreshData (inputs : RefreshInputs) (st : State.t) : State.t :=
  let st := State.setIsLoadingData true st in
  let st :=
    match State.liveData st with
    | Some ld =>
        State.setWordleError []
          (State.setWordleState initialWordleState
             (State.setLiveData (Some (refreshedLiveData inputs ld)) st))
    | None => st
    end in
  State.setIsLoadingData false st.

(** The settling of [fetchData]: [None] when its [try] block throws. *)
Definition fetchDataSettled (result : option LiveData) (st : State.t) : State.t :=
  let st :=
    match result with
    | Some ld => State.setWordleState initialWordleState (State.setLiveData (Some ld) st)
    | None => st
    end in
  State.setIsLoadingData false st.

(** [handleWordleGuess]; [response] is what the dictionary lookup awaited
    by [checkDutchWord] yields. *)
Definition handleWordleGuess (h : Host) (guess : jsstring)
    (response : FetchResult) (st : State.t) : State.t :=
  match State.liveData st with
  | None => st
  | Some ld =>
      if gameOver (State.wordleState st) || negb (length guess =? 5)%nat then st
      else
        let guessUpper := toUpperCase h guess in
        let isValid := checkDutchWord h response guessUpper in
        if negb isValid then State.setWordleError wordleErrorMessage st
        else
          let st := State.setWordleError [] st in
          let newGuesses := guesses (State.wordleState st) ++ [guessUpper] in
          let gameWon := str_eqb guessUpper (toUpperCase h (wordleWord ld)) in
          let gameOver :=
            gameWon || (maxGuesses (State.wordleState st) <=? length newGuesses)%nat in
          State.setWordleState
            {| guesses := newGuesses;
               currentGuess := [];
               gameWon := gameWon;
               gameOver := gameOver;
               maxGuesses := maxGuesses (State.wordleState st) |} st
  end.

Definition resetWordleGame (st : State.t) : State.t :=
  State.setWordleError [] (State.setWordleState initialWordleState st).

(** The [onChange] handler of the mini-game input. *)
Definition changeCurrentGuess (h : Host) (value : jsstring) (st : State.t)
  : State.t :=
  let value := firstn 5 (toUpperCase h value) in
  let ws := State.wordleState st in
  State.setWordleError []
    (State.setWordleState
       {| guesses := guesses ws; currentGuess := value; gameWon := gameWon ws;
          gameOver := gameOver ws; maxGuesses := maxGuesses ws |} st).

(** The effect with dependencies
    [[password, liveData, wordleState.gameWon, wordrowCompleted]]. *)
Definition ruleEffect (h : Host) (clock : Clock) (st : State.t) : State.t :=
  let rulesLength := length (rules h clock (State.liveData st)) in
  let ev := evaluate h clock (State.liveData st) (State.password st) in
  let st1 := State.setCompletedRules (newCompletedRules ev) st in
  let st2 := State.setValidationFeedback (newValidationFeedback ev) st1 in
  let st3 :=
    State.setMaxVisibleRule
      (updateMaxVisibleRule rulesLength (State.maxVisibleRule st2) (State.password st)
         (newCompletedRules ev)) st2 in
  if (size (newCompletedRules ev) =? rulesLength)%nat
  then State.setGameComplete true st3
  else st3.

Inductive Event : Type :=
| ChangePassword (value : jsstring)
| ToggleShowPassword
| FetchDataSettled (result : option LiveData)
| RefreshData (inputs : RefreshInputs)
| ChangeCurrentGuess (value : jsstring)
| SubmitGuess (response : FetchResult)
| ResetWordleGame
| PuzzleCompleteMessage.

Definition handle (h : Host) (e : Event) (st : State.t) : State.t :=
  match e with
  | ChangePassword value => State.setPassword value st
  | ToggleShowPassword => State.setShowPassword (negb (State.showPassword st)) st
  | FetchDataSettled result => fetchDataSettled result st
  | RefreshData inputs => handleRefreshData inputs st
  | ChangeCurrentGuess value => changeCurrentGuess h value st
  | SubmitGuess response =>
      handleWordleGuess h (currentGuess (State.wordleState st)) response st
  | ResetWordleGame => resetWordleGame st
  | PuzzleCompleteMessage => State.setWordrowCompleted true st
  end.

(** Whether a dependency of the effect has changed.  [State.setLiveData] always
    stores a fresh object, which never is the previous one. *)
Definition depsChanged (e : Event) (before after : State.t) : bool :=
  match e with
  | FetchDataSettled (Some _) => true
  | RefreshData _ => bool_decide (is_Some (State.liveData before))
  | _ =>
      negb (str_eqb (State.password before) (State.password after))
      || negb (eqb (gameWon (State.wordleState before)) (gameWon (State.wordleState after)))
      || negb (eqb (State.wordrowCompleted before) (State.wordrowCompleted after))
  end.

(** One event: its handler, then the effect if a dependency changed. *)
Definition step (h : Host) (st : State.t) (ec : Event * Clock) : State.t :=
  let st' := handle h ec.1 st in
  if depsChanged ec.1 st st' then ruleEffect h ec.2 st' else st'.

(** The state after mounting: the effect runs once on the initial state. *)
Definition mount (h : Host) (clock : Clock) : State.t :=
  ruleEffect h clock State.init.

Definition run (h : Host) (st : State.t) (trace : list (Event * Clock)) : State.t :=
  fold_left (step h) trace st.

(** ** Reference definitions, in the words of the specification *)

(** The value of a symbol of a run. *)
Definition spec_symbolValue (c : char16) : Z :=
  default 0 (romanNumerals (Some c)).

(** RomanNumeralValuer: scan left to right; when a next symbol exists and
    the current value is smaller, add their difference and advance two
    positions, otherwise add the current value and advance one. *)
Fixpoint spec_valueOf (run : jsstring) : Z :=
  match run with
  | [] => 0
  | c :: rest =>
      match rest with
      | n :: rest' =>
          if spec_symbolValue c <? spec_symbolValue n
          then (spec_symbolValue n - spec_symbolValue c) + spec_valueOf rest'
          else spec_symbolValue c + spec_valueOf rest
      | [] => spec_symbolValue c
      end
  end.

(** [run] is a maximal contiguous run of the class inside
    [pre ++ run ++ post]. *)
Definition maximalRun (cls : char16 -> bool) (pre run post : jsstring) : Prop :=
  run ≠ [] ∧ Forall (fun c => cls c = true) run ∧
  (∀ c, last pre = Some c → cls c = false) ∧
  (∀ c, head post = Some c → cls c = false).

Inductive Classification : Type := Exact | Partial | Absent.

(** The class string each classification is rendered with. *)
Definition statusOf (k : Classification) : LetterStatus :=
  match k with
  | Exact => BgGreen500
  | Partial => BgYellow500
  | Absent => BgGray400
  end.

(** WordGuessScorer, pass 1: position i is exact where the letters agree. *)
Definition spec_pass1 (guess target : jsstring) : list (char16 * bool) :=
  zip_with (fun g t => (g, char_eqb g t)) guess target.

(** Pass 2, left to right over the marked guess: a non-exact letter is
    Partial while an unconsumed occurrence remains in the multiset, and
    consumes it. *)
Fixpoint spec_pass2 (remaining : gmultiset char16)
    (marked : list (char16 * bool)) : list Classification :=
  match marked with
  | [] => []
  | (_, true) :: rest => Exact :: spec_pass2 remaining rest
  | (c, false) :: rest =>
      if bool_decide (c ∈ remaining)
      then Partial :: spec_pass2 (remaining ∖ {[+ c +]}) rest
      else Absent :: spec_pass2 remaining rest
  end.

Definition spec_score (guess target : jsstring) : list Classification :=
  let marked := spec_pass1 guess target in
  let exactLetters := (List.filter snd marked).*1 in
  spec_pass2 (list_to_set_disj target ∖ list_to_set_disj exactLetters) marked.

(** ProgressionController: [k] is the longest prefix of satisfied ids. *)
Definition longestPrefix (rulesLength : nat) (satisfiedIds : gset nat) (k : nat)
  : Prop :=
  (k ≤ rulesLength)%nat ∧
  (∀ i, (1 ≤ i ≤ k)%nat → i ∈ satisfiedIds) ∧
  (k = rulesLength ∨ (k + 1)%nat ∉ satisfiedIds).

(** Primality of a length. *)
Definition primeLength (n : nat) : Prop := Z.prime (Z.of_nat n).

(** ** A host for running the model

    [asciiLower] agrees with [toLowerCase] on text whose uppercase letters
    are all ASCII, and [asciiUpper] with [toUpperCase] on text whose
    lowercase letters are all ASCII; the examples below apply them to such
    text only.  The offset is that of Central European Time. *)

Definition asciiLower (s : jsstring) : jsstring :=
  map (fun c => if in_range "A" "Z" c then (c + 32)%N else c) s.

Definition asciiUpper (s : jsstring) : jsstring :=
  map (fun c => if in_range "a" "z" c then (c - 32)%N else c) s.

Definition asciiHost : Host :=
  {| toLowerCase := asciiLower; toUpperCase := asciiUpper;
     getTimezoneOffset := fun _ => -60 |}.

(** ** Auxiliary notions for the statements about the evaluation pass *)

(** Whether the pass reaches the validator of a rule. *)
Definition reaches (liveData : option LiveData) (rule : Rule) : bool :=
  negb (requiresLiveData rule) || bool_decide (is_Some liveData).

(** The feedback entry a rule contributes, if any. *)
Definition feedbackEntry (liveData : option LiveData) (password : jsstring)
    (rule : Rule) : option jsstring :=
  if reaches liveData rule && negb (validator rule password) then
    match validationFeedback rule with
    | Some feedbackFn =>
        match feedbackFn password with
        | Some (c :: feedback) => Some (c :: feedback)
        | _ => None
        end
    | None => None
    end
  else None.

(** The ids and the [requiresLiveData] flags of the catalog depend neither
    on the host nor on the clock or the live data. *)
Definition catalogShape : list (nat * bool) :=
  [ (1, false); (2, false); (3, false); (4, false); (5, false); (6, false);
    (7, false); (8, true); (9, true); (10, false); (11, true); (12, true);
    (13, false); (14, false); (15, false); (16, false); (17, false);
    (18, false); (19, false); (20, false); (21, true); (22, true);
    (23, true); (24, false); (25, false) ]%nat.

(** Counting letters: occurrences in a string, exact and non-exact
    positions of a letter in a marked guess, and positions of a letter
    that a score credits as Exact or Partial. *)
Definition countLetter (c : char16) (s : jsstring) : nat :=
  length (List.filter (fun l => char_eqb l c) s).

Definition exactCount (c : char16) (marked : list (char16 * bool)) : nat :=
  length (List.filter (fun m => char_eqb m.1 c && m.2) marked).

Definition nonExactCount (c : char16) (marked : list (char16 * bool)) : nat :=
  length (List.filter (fun m => char_eqb m.1 c && negb m.2) marked).

Definition credited (k : Classification) : bool :=
  match k with
  | Absent => false
  | _ => true
  end.

Definition creditedCount (c : char16) (guess : jsstring)
    (score : list Classification) : nat :=
  length (List.filter (fun m => char_eqb m.1 c && credited m.2) (zip guess score)).

(** Entry 21 of the catalog. *)
Definition rule21 (h : Host) (liveData : option LiveData) : Rule :=
  mkLiveRule 21 (rule21_validator h liveData) (Some (rule21_feedback h liveData)).

(** ** Concrete data for the examples *)

Definition clockAt (ms : Z) : Clock :=
  {| nowInGetCurrentTime := ms; nowInValidator := ms |}.

(** 5 March 2026 at 12:00, 13:00 and 19:59 in the zone two hours ahead of
    UTC, as milliseconds since the epoch. *)
Definition clockNoon : Clock := clockAt 1772704800000.
Definition clockOne : Clock := clockAt 1772708400000.
Definition clockEvening : Clock := clockAt 1772733540000.

(** Live data of that day: day 64 of the year, a Thursday; the symbol
    strings are entries of the tables in [fetchData]. *)
Definition exampleLiveData : LiveData :=
  {| dayOfYear := 64;
     dayOfWeek := 4;
     zodiacSymbol := [8218; 244; 236]%N;
     moonPhase := [63743; 252; 229; 239]%N;
     temperature := 20;
     wordleWord := lit "WATER";
     mathProblem := mkProblem (lit "(5 + 3) " ++ [8730; 8721]%N ++ lit " 2") 4;
     chessMove := lit "Qb5+";
     chessPosition := ∅;
     countryCode := lit "NL";
     countryName := lit "nederland";
     streetViewUrl := locationStreetViewUrl (nth 0 locations (mkLocation [] [] [])) |}.

(** A candidate that satisfies all 25 rules for [exampleLiveData] when the
    clock shows 19:59. *)
Definition winningPassword : jsstring :=
  lit "HeXXXV:mei19:59geesttomorrowlandrood64verkeerdenederlandQb5+92AAA!"
  ++ zodiacSymbol exampleLiveData ++ moonPhase exampleLiveData.

(** ** The zodiac table of [fetchData] *)

Record ZodiacSign : Type := mkSign {
  start : Z * Z;
  end_ : Z * Z;
  symbol : jsstring
}.

(** The symbols hold the code units of the source file as it stands. *)
Definition zodiacSigns : list ZodiacSign :=
  [ mkSign (12, 22) (1, 19) [8218; 244; 235]%N;
    mkSign (1, 20) (2, 18) [8218; 244; 237]%N;
    mkSign (2, 19) (3, 20) [8218; 244; 236]%N;
    mkSign (3, 21) (4, 19) [8218; 244; 224]%N;
    mkSign (4, 20) (5, 20) [8218; 244; 226]%N;
    mkSign (5, 21) (6, 20) [8218; 244; 228]%N;
    mkSign (6, 21) (7, 22) [8218; 244; 227]%N;
    mkSign (7, 23) (8, 22) [8218; 244; 229]%N;
    mkSign (8, 23) (9, 22) [8218; 244; 231]%N;
    mkSign (9, 23) (10, 22) [8218; 244; 233]%N;
    mkSign (10, 23) (11, 21) [8218; 244; 232]%N;
    mkSign (11, 22) (12, 21) [8218; 244; 234]%N ].

(** The test of the loop body for one sign. *)
Definition signMatches (month day : Z) (sign : ZodiacSign) : bool :=
  let '(startMonth, startDay) := start sign in
  let '(endMonth, endDay) := end_ sign in
  ((month =? startMonth) && (startDay <=? day))
  || ((month =? endMonth) && (day <=? endDay)).

(** [for (const sign of zodiacSigns) { if (...) { zodiacSymbol = ...; break } }] *)
Fixpoint zodiacLoop (month day : Z) (signs : list ZodiacSign)
    (zodiacSymbol : jsstring) : jsstring :=
  match signs with
  | [] => zodiacSymbol
  | sign :: rest =>
      if signMatches month day sign then symbol sign
      else zodiacLoop month day rest zodiacSymbol
  end.

(** The zodiac symbol for [month = now.getMonth() + 1] and
    [day = now.getDate()]; the initial value is the symbol of the fourth
    sign. *)
Definition zodiacSymbolOf (month day : Z) : jsstring :=
  zodiacLoop month day zodiacSigns [8218; 244; 224]%N.

(** ** The highlighting overlay *)

(** An element of the array [parts]: a slice of the password, or the
    [span] built for a match, with its key [match.index], its text and the
    value shown in its title. *)
Inductive Part : Type :=
| TextPart (text : jsstring)
| SpanPart (key : nat) (romanText : jsstring) (value : option Z).

(** What [highlightRomanNumerals] returns: its argument, or [parts]. *)
Inductive Highlighted : Type :=
| Unchanged (pwd : jsstring)
| Decorated (parts : list Part).

(** [if (match.index > lastIndex) parts.push(pwd.slice(lastIndex, match.index))],
    and the same for the slice after the last match. *)
Definition pushSlice (text : jsstring) (parts : list Part) : list Part :=
  match text with
  | [] => parts
  | _ => TextPart text :: parts
  end.

(** The [while] loop over [romanPattern.exec(pwd)].  [index] is the
    position reached in [pwd], [text] the slice read since [lastIndex]
    and [run] the match being read, which started at [index - length run].
    The value of a match is computed by the same loop as in rule 14. *)
Fixpoint highlightLoop (index : nat) (text run : jsstring) (s : jsstring)
  : list Part :=
  match s with
  | [] =>
      match run with
      | [] => pushSlice text []
      | _ => pushSlice text [SpanPart (index - length run) run (romanValue run)]
      end
  | c :: s' =>
      if class_roman c then highlightLoop (S index) text (run ++ [c]) s'
      else
        match run with
        | [] => highlightLoop (S index) (text ++ [c]) [] s'
        | _ =>
            pushSlice text
              (SpanPart (index - length run) run (romanValue run)
               :: highlightLoop (S index) [c] [] s')
        end
  end.

Definition highlightRomanNumerals (maxVisibleRule : nat)
    (completedRules : gset nat) (pwd : jsstring) : Highlighted :=
  match pwd with
  | [] => Unchanged pwd
  | _ =>
      let rule14Visible := (14 <=? maxVisibleRule)%nat in
      let rule14Completed := bool_decide (14%nat ∈ completedRules) in
      if negb rule14Visible || rule14Completed then Unchanged pwd
      else
        let parts := highlightLoop 0 [] [] pwd in
        if (1 <? length parts)%nat then Decorated parts else Unchanged pwd
  end.

(** The text a part shows. *)
Definition partText (part : Part) : jsstring :=
  match part with
  | TextPart text => text
  | SpanPart _ romanText _ => romanText
  end.


(** ** The rule cards *)




(** ** Sessions *)

(** The states a session passes through: the mounted component, then any
    sequence of events, handled one at a time.  A guess is one event, from
    the click to the settling of the dictionary lookup, and so is a
    refresh, from the click to the end of its timer callback: sessions in
    which another event arrives in between are not described. *)
Definition reachable (h : Host) (st : State.t) : Prop :=
  ∃ clock trace, st = run h (mount h clock) trace.

(** The sum of the digits of a string, as rule 7 computes it. *)
Definition digitSum (pwd : jsstring) : Z :=
  fold_left (fun acc digit => acc + parseInt_digit digit)
    (default [] (match_class class_digit pwd)) 0.

(** The number of code units of a class. *)
Definition countClass (cls : char16 → bool) (pwd : jsstring) : nat :=
  length (List.filter cls pwd).

(** The wall clock HH:MM of the instant [ms] in UTC. *)
Definition twoDigits (v : Z) : jsstring :=
  [Z.to_N (48 + v / 10); Z.to_N (48 + v mod 10)].

Definition wallClock (ms : Z) : jsstring :=
  twoDigits ((ms / 3600000) mod 24) ++ lit ":" ++ twoDigits ((ms / 60000) mod 60).

(** The number of mandatory items of a pattern. *)
Definition mandatoryItems (items : list RegexItem) : nat :=
  length (List.filter
            (fun item => match item with Mandatory _ => true | Optional _ => false end)
            items).


(** What holds of every part the overlay builds: a slice has no Roman
    letter; a span is a non-empty run of Roman letters that stands in
    [pwd] at its key and carries the value of the run. *)
Definition partWellFormed (pwd : jsstring) (part : Part) : Prop :=
  match part with
  | TextPart text => Forall (fun c => class_roman c = false) text
  | SpanPart key romanText value =>
      romanText ≠ []
      ∧ Forall (fun c => class_roman c = true) romanText
      ∧ take (length romanText) (drop key pwd) = romanText
      ∧ value = Some (spec_valueOf romanText)
  end.

(** What every state of a session satisfies about the mini-game round. *)
Definition wordleInvariant (h : Host) (st : State.t) : Prop :=
  maxGuesses (State.wordleState st) = 6%nat
  ∧ (length (guesses (State.wordleState st)) ≤ 6)%nat
  ∧ (gameOver (State.wordleState st) = true ↔
     gameWon (State.wordleState st) = true
     ∨ length (guesses (State.wordleState st)) = 6%nat)
  ∧ (length (currentGuess (State.wordleState st)) ≤ 5)%nat
  ∧ (guesses (State.wordleState st) ≠ [] → is_Some (State.liveData st))
  ∧ Forall (fun guess => ∃ raw, length raw = 5%nat ∧ guess = toUpperCase h raw)
      (guesses (State.wordleState st)).

(** The ids of the rules that do not require live data. *)
Definition plainRuleIds : gset nat :=
  list_to_set (map fst (List.filter (fun shape => negb (snd shape)) catalogShape)).

(** A trace in which no fetch of live data succeeds. *)
Definition noFetch (trace : list (Event * Clock)) : Prop :=
  Forall (fun ec => ∀ ld, fst ec ≠ FetchDataSettled (Some ld)) trace.

(** The fields of the live data that only [fetchData] computes. *)
Definition sameDay (a b : LiveData) : Prop :=
  dayOfYear a = dayOfYear b ∧ dayOfWeek a = dayOfWeek b
  ∧ zodiacSymbol a = zodiacSymbol b ∧ moonPhase a = moonPhase b
  ∧ chessMove a = chessMove b ∧ chessPosition a = chessPosition b.

(** What every state of a session satisfies about the target word: it
    is the last recorded guess when the round is won, and no recorded
    guess otherwise. *)
Definition winInvariant (h : Host) (st : State.t) : Prop :=
  ∀ ld, State.liveData st = Some ld →
    (gameWon (State.wordleState st) = false →
     ¬ In (toUpperCase h (wordleWord ld)) (guesses (State.wordleState st)))
    ∧ (gameWon (State.wordleState st) = true →
       ∃ earlier,
         guesses (State.wordleState st) = earlier ++ [toUpperCase h (wordleWord ld)]
         ∧ ¬ In (toUpperCase h (wordleWord ld)) earlier).

(** * Properties *)

(** ** Strings *)

Lemma char_eqb_eq (a b : char16) : char_eqb a b = true ↔ a = b.
Proof. apply N.eqb_eq. Qed.

Lemma char_eqb_refl (a : char16) : char_eqb a a = true.
Proof. apply N.eqb_refl. Qed.

Lemma str_eqb_eq (a b : jsstring) : str_eqb a b = true ↔ a = b.
Proof.
  revert b. induction a as [|x a IH]; intros [|y b]; simpl; try easy.
  rewrite andb_true_iff, char_eqb_eq, IH. split.
  - intros [-> ->]. reflexivity.
  - intros [= -> ->]. auto.
Qed.

Lemma startsWith_spec (needle hay : jsstring) :
  startsWith needle hay = true ↔ ∃ post, hay = needle ++ post.
Proof.
  revert hay. induction needle as [|a needle IH]; intros hay; simpl.
  - split; eauto.
  - destruct hay as [|b hay].
    + split; [easy | intros [post Hpost]; discriminate].
    + rewrite andb_true_iff, char_eqb_eq, IH. split.
      * intros [-> [post ->]]. eauto.
      * intros [post [= -> ->]]. eauto.
Qed.

Lemma includes_spec (hay needle : jsstring) :
  includes hay needle = true ↔ ∃ pre post, hay = pre ++ needle ++ post.
Proof.
  induction hay as [|c hay IH]; simpl; rewrite orb_true_iff, startsWith_spec.
  - split.
    + intros [[post Hpost] | ?]; [|easy]. exists [], post. exact Hpost.
    + intros (pre & post & Heq). left.
      destruct pre; [eauto | discriminate].
  - rewrite IH. split.
    + intros [[post Hpost] | (pre & post & ->)].
      * exists [], post. exact Hpost.
      * exists (c :: pre), post. reflexivity.
    + intros ([|c' pre] & post & Heq).
      * left. eauto.
      * right. injection Heq as -> ->. eauto.
Qed.

(** ** Rule 25 *)

Lemma primeLoop_spec (i len : nat) :
  (1 ≤ i)%nat →
  primeLoop i len = true ↔
  ∀ d, (i ≤ d)%nat → (d * d ≤ len)%nat → (len mod d ≠ 0)%nat.
Proof.
  funelim (primeLoop i len); intros Hi.
  - pose proof (proj1 (Nat.leb_le _ _) Hle) as Hii.
    destruct (Nat.eqb_spec (len mod i) 0) as [Hmod | Hmod].
    + split; [discriminate |]. intros Hall. exfalso. exact (Hall i (le_n _) Hii Hmod).
    + rewrite H by lia. split.
      * intros Hall d Hd Hdd. destruct (decide (d = i)) as [-> | Hne]; [exact Hmod |].
        apply Hall; lia.
      * intros Hall d Hd Hdd. apply Hall; lia.
  - pose proof (proj1 (Nat.leb_gt _ _) e) as Hii. split; [| reflexivity].
    intros _ d Hd Hdd. nia.
Qed.

Lemma small_divisor (n m : nat) :
  (1 < m < n)%nat → (n mod m = 0)%nat →
  ∃ d, (2 ≤ d)%nat ∧ (d * d ≤ n)%nat ∧ (n mod d = 0)%nat.
Proof.
  intros Hm Hmod.
  apply Nat.Div0.mod_divides in Hmod as [q Hq].
  destruct (le_lt_dec (m * m) n) as [Hsmall | Hbig].
  - exists m. repeat split; [lia | exact Hsmall |].
    apply Nat.Div0.mod_divides. eauto.
  - exists q. assert (2 ≤ q)%nat by nia. repeat split; [lia | nia |].
    apply Nat.Div0.mod_divides. exists m. lia.
Qed.

Lemma rule25_validator_spec (pwd : jsstring) :
  rule25_validator pwd = true ↔ primeLength (length pwd).
Proof.
  unfold rule25_validator, primeLength. set (n := length pwd).
  unfold Z.prime.
  destruct (Nat.ltb_spec n 2) as [Hlt | Hge].
  - split; [discriminate | lia].
  - rewrite primeLoop_spec by lia. split.
    + intros Hall. split; [lia |]. intros m Hm Hdiv.
      destruct (small_divisor n (Z.to_nat m)) as (d & Hd & Hdd & Hmod); [lia | |].
      * destruct Hdiv as [q Hq]. apply Nat.Div0.mod_divides.
        exists (Z.to_nat q). nia.
      * exact (Hall d Hd Hdd Hmod).
    + intros [_ Hall] d Hd Hdd Hmod.
      apply (Hall (Z.of_nat d)); [nia |].
      apply Nat.Div0.mod_divides in Hmod as [q Hq]. exists (Z.of_nat q). nia.
Qed.


(** C8.  Rule 25 holds exactly when the length of the candidate is a
    prime number; 2, 3, 5 and 7 are such lengths, and 1, 4, 6, 8 and 9 are
    not. *)
Theorem rule25_prime_length :
  (∀ pwd : jsstring, rule25_validator pwd = true ↔ primeLength (length pwd))
  ∧ Forall primeLength [2; 3; 5; 7]%nat
  ∧ Forall (fun n => ¬ primeLength n) [1; 4; 6; 8; 9]%nat.
Proof.
  split; [exact rule25_validator_spec |].
  assert (∀ n, primeLength n ↔ rule25_validator (replicate n 0%N) = true) as Hn.
  { intros n. rewrite rule25_validator_spec, length_replicate. reflexivity. }
  split.
  - repeat constructor; apply Hn; reflexivity.
  - repeat constructor; rewrite Hn; discriminate.
Qed.

(** Candidates of the nine lengths of the claim. *)
Lemma rule25_prime_length_witness :
  map (fun n => rule25_validator (replicate n 120%N)) [2; 3; 5; 7]%nat
    = [true; true; true; true]
  ∧ map (fun n => rule25_validator (replicate n 120%N)) [1; 4; 6; 8; 9]%nat
    = [false; false; false; false; false]
  ∧ primeLength (length (lit "geest")).
Proof.
  split; [reflexivity |]. split; [reflexivity |].
  apply (proj1 rule25_prime_length (lit "geest")). reflexivity.
Defined.

(** The loop guard as JavaScript evaluates it, on binary64 numbers, agrees
    with the integer comparison of the model for every length below 600
    and every counter the loop can reach. *)
Example sqrt_guard_agrees :
  forallb (fun len =>
    forallb (fun i =>
      Bool.eqb (i * i <=? len)%nat
        (PrimFloat.leb (PrimFloat.of_uint63 (Uint63.of_Z (Z.of_nat i)))
           (PrimFloat.sqrt (PrimFloat.of_uint63 (Uint63.of_Z (Z.of_nat len))))))
      (seq 0 27))
    (seq 0 600) = true.
Proof. vm_compute. reflexivity. Qed.

(** ** Rule 14 *)

Lemma romanNumerals_roman (c : char16) :
  class_roman c = true → romanNumerals (Some c) = Some (spec_symbolValue c).
Proof.
  unfold spec_symbolValue, class_roman, one_of, romanNumerals. simpl.
  repeat (destruct (char_eqb c _); [reflexivity |]). discriminate.
Qed.

Lemma romanLoop_cons2 (value : option Z) (c d : char16) (rest : jsstring) :
  romanLoop value (c :: d :: rest) =
  match romanNumerals (Some c), romanNumerals (Some d) with
  | Some cur, Some nxt =>
      if cur <? nxt
      then romanLoop (v ← value; Some (v + (nxt - cur))) rest
      else romanLoop (v ← value; Some (v + cur)) (d :: rest)
  | Some cur, None => romanLoop (v ← value; Some (v + cur)) (d :: rest)
  | None, _ => romanLoop None (d :: rest)
  end.
Proof.
  cbn [romanLoop head].
  destruct (romanNumerals (Some c)), (romanNumerals (Some d)); reflexivity.
Qed.

Lemma spec_valueOf_cons2 (c d : char16) (rest : jsstring) :
  spec_valueOf (c :: d :: rest) =
  if spec_symbolValue c <? spec_symbolValue d
  then (spec_symbolValue d - spec_symbolValue c) + spec_valueOf rest
  else spec_symbolValue c + spec_valueOf (d :: rest).
Proof. reflexivity. Qed.

Lemma romanLoop_roman (n : nat) :
  ∀ (run : jsstring) (v : Z),
    (length run ≤ n)%nat → Forall (fun c => class_roman c = true) run →
    romanLoop (Some v) run = Some (v + spec_valueOf run).
Proof.
  induction n as [|n IH]; intros run v Hlen Hrun.
  - destruct run; [simpl; f_equal; lia | simpl in Hlen; lia].
  - destruct run as [|c [|d rest]].
    + simpl. f_equal. lia.
    + apply Forall_cons in Hrun as [Hc _]. cbn [romanLoop spec_valueOf head].
      rewrite (romanNumerals_roman c Hc). reflexivity.
    + apply Forall_cons in Hrun as [Hc Hrest].
      pose proof Hrest as Hrest'. apply Forall_cons in Hrest' as [Hd Hrest2].
      rewrite romanLoop_cons2, spec_valueOf_cons2.
      rewrite (romanNumerals_roman c Hc), (romanNumerals_roman d Hd).
      cbn [mbind option_bind]. simpl in Hlen.
      destruct (spec_symbolValue c <? spec_symbolValue d).
      * rewrite IH by (auto; lia). f_equal. lia.
      * rewrite IH by (simpl; auto; lia). f_equal. lia.
Qed.

Lemma romanValue_roman (run : jsstring) :
  Forall (fun c => class_roman c = true) run →
  romanValue run = Some (spec_valueOf run).
Proof.
  intros Hrun. unfold romanValue.
  rewrite (romanLoop_roman (length run)) by auto. reflexivity.
Qed.

Lemma scan_runs_In (cls : char16 -> bool) (s : jsstring) :
  ∀ (run m : jsstring),
    In m (scan_runs cls run s) ↔
    (∃ r post, s = r ++ post ∧ Forall (fun c => cls c = true) r ∧
               (∀ c, head post = Some c → cls c = false) ∧
               m = run ++ r ∧ m ≠ [])
    ∨ (∃ pre post, s = pre ++ m ++ post ∧
                   (∃ c, last pre = Some c ∧ cls c = false) ∧
                   maximalRun cls pre m post).
Proof.
  induction s as [|c s IH]; intros run m.
  - simpl. split.
    + intros Hin. left. exists [], []. rewrite app_nil_r.
      destruct run; simpl in Hin; [easy |].
      destruct Hin as [<- | []]. repeat split; auto; [by intros ? [=] | by rewrite app_nil_r].
    + intros [(r & post & Hs & _ & _ & -> & Hne) | (pre & post & Hs & _ & Hne & _)].
      * symmetry in Hs. apply app_eq_nil in Hs as [-> ->].
        rewrite app_nil_r in *. destruct run; [easy | left; reflexivity].
      * symmetry in Hs. apply app_eq_nil in Hs as [_ Hs].
        apply app_eq_nil in Hs as [-> _]. easy.
  - cbn [scan_runs]. destruct (cls c) eqn:Hc.
    + rewrite IH. split.
      * intros [(r & post & -> & Hr & Hpost & -> & Hne)
               | (pre & post & -> & (x & Hlast & Hx) & Hmax)].
        -- left. exists (c :: r), post. rewrite <- app_assoc in *.
           repeat split; auto.
        -- right. exists (c :: pre), post. split; [reflexivity |].
           assert (last (c :: pre) = last pre) as Hl
             by (destruct pre; [discriminate | reflexivity]).
           split; [exists x; rewrite Hl; auto |].
           destruct Hmax as (? & ? & ? & ?). repeat split; auto.
           intros y. rewrite Hl. auto.
      * intros [(r & post & Hs & Hr & Hpost & -> & Hne)
               | (pre & post & Hs & (x & Hlast & Hx) & Hmax)].
        -- left. destruct r as [|c' r].
           ++ simpl in Hs. subst post. specialize (Hpost c eq_refl). congruence.
           ++ injection Hs as <- ->. apply Forall_cons in Hr as [_ Hr].
              exists r, post. rewrite <- app_assoc. repeat split; auto.
        -- right. destruct pre as [|c' [|c'' pre]]; [discriminate | |].
           ++ injection Hs as <- _. injection Hlast as <-. congruence.
           ++ injection Hs as <- ->. exists (c'' :: pre), post.
              split; [reflexivity |]. change (last (c :: c'' :: pre)) with (last (c'' :: pre)) in *.
              split; [eauto |]. destruct Hmax as (? & ? & ? & ?). repeat split; auto.
    + assert (In m (match run with
                    | [] => scan_runs cls [] s
                    | _ :: _ => run :: scan_runs cls [] s
                    end) ↔ (run ≠ [] ∧ m = run) ∨ In m (scan_runs cls [] s)) as ->.
      { destruct run; simpl; [intuition congruence |].
        split; [intros [<- | ?]; [left; split; [discriminate | reflexivity] | auto]
               | intros [[_ ->] | ?]; auto]. }
      rewrite IH. split.
      * intros [[Hne ->] | [(r & post & -> & Hr & Hpost & -> & Hne)
                           | (pre & post & -> & (x & Hlast & Hx) & Hmax)]].
        -- left. exists [], (c :: s). rewrite app_nil_r.
           repeat split; auto. intros y [= <-]. exact Hc.
        -- right. exists [c], post. split; [reflexivity |].
           split; [exists c; auto |]. repeat split; auto.
           intros y [= <-]. exact Hc.
        -- right. exists (c :: pre), post. split; [reflexivity |].
           assert (last (c :: pre) = last pre) as Hl
             by (destruct pre; [discriminate | reflexivity]).
           split; [exists x; rewrite Hl; auto |].
           destruct Hmax as (? & ? & ? & ?). repeat split; auto.
           intros y. rewrite Hl. auto.
      * intros [(r & post & Hs & Hr & Hpost & -> & Hne)
               | (pre & post & Hs & (x & Hlast & Hx) & Hmax)].
        -- left. destruct r as [|c' r].
           ++ rewrite app_nil_r in *. auto.
           ++ injection Hs as <- _. apply Forall_cons in Hr as [Hr _]. congruence.
        -- right. destruct pre as [|c' [|c'' pre]]; [discriminate | |].
           ++ injection Hs as <- ->. left. exists m, post.
              destruct Hmax as (? & ? & ? & ?). repeat split; auto.
           ++ injection Hs as <- ->. right. exists (c'' :: pre), post.
              split; [reflexivity |]. change (last (c :: c'' :: pre)) with (last (c'' :: pre)) in *.
              split; [eauto |]. destruct Hmax as (? & ? & ? & ?). repeat split; auto.
Qed.

Lemma match_class_plus_In (cls : char16 -> bool) (s m : jsstring) :
  (∃ ms, match_class_plus cls s = Some ms ∧ In m ms) ↔
  ∃ pre post, s = pre ++ m ++ post ∧ maximalRun cls pre m post.
Proof.
  assert (In m (scan_runs cls [] s) ↔
          ∃ pre post, s = pre ++ m ++ post ∧ maximalRun cls pre m post) as <-.
  { rewrite scan_runs_In. split.
    - intros [(r & post & -> & Hr & Hpost & -> & Hne) | (pre & post & -> & _ & Hmax)].
      + exists [], post. repeat split; auto. discriminate.
      + eauto.
    - intros (pre & post & -> & Hmax). destruct (last pre) as [x|] eqn:Hlast.
      + right. exists pre, post. split; [reflexivity |]. split; [| exact Hmax].
        exists x. split; [exact Hlast |]. destruct Hmax as (_ & _ & Hpre & _). auto.
      + left. apply last_None in Hlast as ->. exists m, post.
        destruct Hmax as (? & ? & ? & ?). repeat split; auto. }
  unfold match_class_plus. destruct (scan_runs cls [] s) as [|m0 ms].
  - split; [intros (ms & [=] & _) | intros []].
  - split; [intros (ms' & [= <-] & Hin); exact Hin | eauto].
Qed.

Lemma rule14_validator_spec (pwd : jsstring) :
  rule14_validator pwd = true ↔
  ∃ pre run post,
    pwd = pre ++ run ++ post ∧ maximalRun class_roman pre run post ∧
    spec_valueOf run = 35.
Proof.
  transitivity (∃ m, (∃ ms, match_class_plus class_roman pwd = Some ms ∧ In m ms)
                     ∧ is35 (romanValue m) = true).
  - unfold rule14_validator.
    destruct (match_class_plus class_roman pwd) as [ms|].
    + rewrite existsb_exists. split.
      * intros (m & Hin & H35). exists m. eauto.
      * intros (m & (ms' & [= <-] & Hin) & H35). eauto.
    + split; [discriminate | intros (m & (ms & [=] & _) & _)].
  - split.
    + intros (m & Hm & H35). apply match_class_plus_In in Hm as (pre & post & -> & Hmax).
      exists pre, m, post. split; [reflexivity |]. split; [exact Hmax |].
      destruct Hmax as (_ & Hroman & _). rewrite romanValue_roman in H35 by exact Hroman.
      simpl in H35. lia.
    + intros (pre & run & post & -> & Hmax & H35). exists run. split.
      * apply match_class_plus_In. eauto.
      * destruct Hmax as (_ & Hroman & _). rewrite romanValue_roman by exact Hroman.
        simpl. lia.
Qed.



(** ** Progression *)

Lemma visibleLoop_spec (completed : gset nat) (remaining : nat) :
  ∀ i v : nat,
    ∃ k, (k ≤ remaining)%nat
         ∧ (∀ j, (i ≤ j < i + k)%nat → j ∈ completed)
         ∧ (k = remaining ∨ (i + k)%nat ∉ completed)
         ∧ visibleLoop completed i remaining v
           = if (k =? 0)%nat then v else (i + k)%nat.
Proof.
  induction remaining as [|n IH]; intros i v.
  - exists 0%nat. repeat split; auto. intros j Hj. lia.
  - cbn [visibleLoop]. case_bool_decide as Hi.
    + destruct (IH (i + 1)%nat (i + 1)%nat) as (k & Hk & Hall & Hstop & Heq).
      exists (S k). split; [lia |]. split; [| split].
      * intros j Hj. destruct (decide (j = i)) as [-> | Hne]; [exact Hi |].
        apply Hall. lia.
      * destruct Hstop as [-> | Hstop]; [left; reflexivity | right].
        replace (i + S k)%nat with (i + 1 + k)%nat by lia. exact Hstop.
      * rewrite Heq. destruct (Nat.eqb_spec k 0); simpl; lia.
    + exists 0%nat. split; [lia |]. split; [intros j Hj; lia |].
      split; [right; rewrite Nat.add_0_r; exact Hi | reflexivity].
Qed.

Lemma longestPrefix_unique (rulesLength : nat) (satisfiedIds : gset nat)
    (k1 k2 : nat) :
  longestPrefix rulesLength satisfiedIds k1 →
  longestPrefix rulesLength satisfiedIds k2 → k1 = k2.
Proof.
  intros (Hle1 & Hall1 & Hstop1) (Hle2 & Hall2 & Hstop2).
  destruct (Nat.lt_trichotomy k1 k2) as [Hlt | [Heq | Hgt]]; [| exact Heq |].
  - destruct Hstop1 as [-> | Hout]; [lia |]. exfalso. apply Hout, Hall2. lia.
  - destruct Hstop2 as [-> | Hout]; [lia |]. exfalso. apply Hout, Hall1. lia.
Qed.

Lemma longestPrefix_exists (rulesLength : nat) (satisfiedIds : gset nat) :
  ∃ k, longestPrefix rulesLength satisfiedIds k
       ∧ visibleLoop satisfiedIds 1 rulesLength 1 = (k + 1)%nat.
Proof.
  destruct (visibleLoop_spec satisfiedIds rulesLength 1 1)
    as (k & Hk & Hall & Hstop & Heq).
  exists k. split.
  - split; [exact Hk |]. split.
    + intros j Hj. apply Hall. lia.
    + destruct Hstop as [-> | Hstop]; [left; reflexivity | right].
      replace (k + 1)%nat with (1 + k)%nat by lia. exact Hstop.
  - rewrite Heq. destruct (Nat.eqb_spec k 0); lia.
Qed.

(** C3.  An empty candidate gives the visible count 0 whatever the previous
    count and the satisfied set; a non-empty candidate gives
    max(prevVisible, min(k+1, N)) for the longest prefix k of satisfied ids,
    which is never below the previous count. *)
Theorem updateMaxVisibleRule_ratchet
    (rulesLength prev k : nat) (password : jsstring) (satisfiedIds : gset nat) :
  longestPrefix rulesLength satisfiedIds k →
  updateMaxVisibleRule rulesLength prev [] satisfiedIds = 0%nat
  ∧ (password ≠ [] →
     updateMaxVisibleRule rulesLength prev password satisfiedIds
       = Nat.max prev (Nat.min (k + 1) rulesLength)
     ∧ (prev ≤ updateMaxVisibleRule rulesLength prev password satisfiedIds)%nat).
Proof.
  intros Hk. split; [reflexivity |]. intros Hne.
  unfold updateMaxVisibleRule.
  destruct password as [|c password]; [easy |]. cbn [length Nat.ltb Nat.leb].
  destruct (longestPrefix_exists rulesLength satisfiedIds) as (k' & Hk' & ->).
  rewrite (longestPrefix_unique _ _ _ _ Hk Hk'). split; [reflexivity | lia].
Qed.

(** Ids 1, 2 and 4 are satisfied out of 25 while five rules were visible:
    the count stays at five; with two visible it becomes three. *)
Lemma updateMaxVisibleRule_ratchet_witness :
  updateMaxVisibleRule 25 5 [] {[1; 2; 4]}%nat = 0%nat
  ∧ updateMaxVisibleRule 25 5 (lit "abc") {[1; 2; 4]}%nat = 5%nat
  ∧ updateMaxVisibleRule 25 2 (lit "abc") {[1; 2; 4]}%nat = 3%nat.
Proof.
  assert (longestPrefix 25 {[1; 2; 4]}%nat 2) as Hk.
  { split; [lia |]. split.
    - intros i Hi. assert (i = 1 ∨ i = 2)%nat as [-> | ->] by lia; set_solver.
    - right. intros Hin. apply elem_of_union in Hin as [Hin | Hin];
        [apply elem_of_union in Hin as [Hin | Hin] |];
        apply elem_of_singleton in Hin; discriminate. }
  assert (lit "abc" ≠ []) as Hne by discriminate.
  split; [exact (proj1 (updateMaxVisibleRule_ratchet 25 5 2 [] _ Hk)) |].
  split.
  - destruct (updateMaxVisibleRule_ratchet 25 5 2 (lit "abc") _ Hk) as [_ Hn].
    destruct (Hn Hne) as [-> _]. reflexivity.
  - destruct (updateMaxVisibleRule_ratchet 25 2 2 (lit "abc") _ Hk) as [_ Hn].
    destruct (Hn Hne) as [-> _]. reflexivity.
Defined.

(** ** The evaluation pass *)

Lemma evaluateRule_completed liveData password acc rule :
  newCompletedRules (evaluateRule liveData password acc rule) =
  if reaches liveData rule && validator rule password
  then {[ id rule ]} ∪ newCompletedRules acc
  else newCompletedRules acc.
Proof.
  unfold evaluateRule, reaches.
  destruct (negb (requiresLiveData rule) || bool_decide (is_Some liveData));
    [| reflexivity].
  destruct (validator rule password); [reflexivity |].
  destruct (validationFeedback rule); reflexivity.
Qed.

Lemma evaluateRule_feedback liveData password acc rule :
  newValidationFeedback (evaluateRule liveData password acc rule) =
  match feedbackEntry liveData password rule with
  | Some feedback => <[ id rule := feedback ]> (newValidationFeedback acc)
  | None => newValidationFeedback acc
  end.
Proof.
  unfold evaluateRule, feedbackEntry, reaches.
  destruct (negb (requiresLiveData rule) || bool_decide (is_Some liveData));
    [| reflexivity].
  destruct (validator rule password); [reflexivity |]. simpl.
  destruct (validationFeedback rule) as [feedbackFn|]; [| reflexivity]. simpl.
  destruct (feedbackFn password) as [[|c feedback]|]; reflexivity.
Qed.

Lemma evaluateRule_calls liveData password acc rule :
  ∃ new, calls (evaluateRule liveData password acc rule) = calls acc ++ new
         ∧ (reaches liveData rule = false → new = [])
         ∧ (∀ call, In call new →
              call = CallValidator (id rule) ∨ call = CallFeedback (id rule)).
Proof.
  unfold evaluateRule, reaches.
  destruct (negb (requiresLiveData rule) || bool_decide (is_Some liveData)).
  - destruct (validator rule password);
      [| destruct (validationFeedback rule)]; eexists;
      (split; [reflexivity |]); (split; [discriminate |]);
      simpl; intuition.
  - exists []. rewrite app_nil_r. repeat split. intros call [].
Qed.

Lemma fold_evaluateRule_completed liveData password (rs : list Rule) :
  ∀ acc (i : nat),
    i ∈ newCompletedRules (fold_left (evaluateRule liveData password) rs acc) ↔
    i ∈ newCompletedRules acc ∨
    ∃ rule, In rule rs ∧ id rule = i ∧ reaches liveData rule = true
            ∧ validator rule password = true.
Proof.
  induction rs as [|r rs IH]; intros acc i; simpl.
  - split; [auto | intros [? | (? & [] & _)]; assumption].
  - rewrite IH, evaluateRule_completed. split.
    + intros [Hin | (rule & Hin & Hrule)].
      * destruct (reaches liveData r && validator r password) eqn:Hr; [| auto].
        apply andb_true_iff in Hr as [? ?].
        apply elem_of_union in Hin as [Hin | Hin]; [| auto].
        apply elem_of_singleton in Hin as ->. right. exists r. auto.
      * right. exists rule. auto.
    + intros [Hin | (rule & [<- | Hin] & <- & Hreach & Hvalid)].
      * left. destruct (reaches liveData r && validator r password);
          [apply elem_of_union; right |]; exact Hin.
      * left. rewrite Hreach, Hvalid. apply elem_of_union. left.
        apply elem_of_singleton. reflexivity.
      * right. exists rule. auto.
Qed.

Lemma evaluateRules_completed rs liveData password (i : nat) :
  i ∈ newCompletedRules (evaluateRules rs liveData password) ↔
  ∃ rule, In rule rs ∧ id rule = i ∧ reaches liveData rule = true
          ∧ validator rule password = true.
Proof.
  unfold evaluateRules. rewrite fold_evaluateRule_completed. simpl.
  split; [intros [Hin | ?]; [set_solver | assumption] | auto].
Qed.

Lemma fold_evaluateRule_feedback liveData password (rs : list Rule) :
  ∀ acc (i : nat),
    NoDup (map id rs) →
    newValidationFeedback (fold_left (evaluateRule liveData password) rs acc) !! i =
    match find (fun rule => (id rule =? i)%nat) rs with
    | Some rule =>
        match feedbackEntry liveData password rule with
        | Some feedback => Some feedback
        | None => newValidationFeedback acc !! i
        end
    | None => newValidationFeedback acc !! i
    end.
Proof.
  induction rs as [|r rs IH]; intros acc i Hnodup; [reflexivity |].
  apply NoDup_cons in Hnodup as [Hr Hnodup]. cbn [fold_left find].
  rewrite IH by exact Hnodup. rewrite evaluateRule_feedback.
  destruct (Nat.eqb_spec (id r) i) as [<- | Hne].
  - assert (find (fun rule => (id rule =? id r)%nat) rs = None) as ->.
    { destruct (find _ rs) as [rule|] eqn:Hfind; [| reflexivity].
      apply find_some in Hfind as [Hin Heq]. apply Nat.eqb_eq in Heq.
      exfalso. apply Hr. rewrite <- Heq. apply list_elem_of_In, in_map, Hin. }
    destruct (feedbackEntry liveData password r); [apply lookup_insert_eq | reflexivity].
  - assert (match feedbackEntry liveData password r with
            | Some feedback => <[ id r := feedback ]> (newValidationFeedback acc)
            | None => newValidationFeedback acc
            end !! i = newValidationFeedback acc !! i) as ->; [| reflexivity].
    destruct (feedbackEntry liveData password r); [| reflexivity].
    apply lookup_insert_ne. exact Hne.
Qed.

Lemma evaluateRules_feedback rs liveData password (i : nat) :
  NoDup (map id rs) →
  newValidationFeedback (evaluateRules rs liveData password) !! i =
  rule ← find (fun rule => (id rule =? i)%nat) rs;
  feedbackEntry liveData password rule.
Proof.
  intros Hnodup. unfold evaluateRules.
  rewrite fold_evaluateRule_feedback by exact Hnodup. simpl.
  destruct (find _ rs) as [rule|]; simpl; [| reflexivity].
  destruct (feedbackEntry liveData password rule); reflexivity.
Qed.

Lemma fold_evaluateRule_calls liveData password (rs : list Rule) :
  ∀ acc call,
    In call (calls (fold_left (evaluateRule liveData password) rs acc)) →
    In call (calls acc) ∨
    ∃ rule, In rule rs ∧ reaches liveData rule = true
            ∧ (call = CallValidator (id rule) ∨ call = CallFeedback (id rule)).
Proof.
  induction rs as [|r rs IH]; intros acc call; simpl; [auto |].
  intros Hin. apply IH in Hin as [Hin | (rule & Hin & Hrule)].
  - destruct (evaluateRule_calls liveData password acc r) as (new & Heq & Hnone & Hnew).
    rewrite Heq in Hin. apply in_app_or in Hin as [Hin | Hin]; [auto |]. right. exists r.
    split; [auto |]. split; [| auto].
    destruct (reaches liveData r); [reflexivity |].
    rewrite Hnone in Hin by reflexivity. destruct Hin.
  - right. exists rule. auto.
Qed.

Lemma rules_shape h clock liveData :
  map (fun rule => (id rule, requiresLiveData rule)) (rules h clock liveData)
  = catalogShape.
Proof. reflexivity. Qed.

Lemma rules_ids h clock liveData :
  map id (rules h clock liveData) = seq 1 25.
Proof. reflexivity. Qed.

Lemma rules_NoDup h clock liveData : NoDup (map id (rules h clock liveData)).
Proof. rewrite rules_ids. apply NoDup_seq. Qed.

Lemma rules_length h clock liveData : length (rules h clock liveData) = 25%nat.
Proof. reflexivity. Qed.

Lemma find_id_In (rs : list Rule) (rule : Rule) :
  NoDup (map id rs) → In rule rs →
  find (fun r => (id r =? id rule)%nat) rs = Some rule.
Proof.
  induction rs as [|r rs IH]; intros Hnodup Hin; [destruct Hin |].
  apply NoDup_cons in Hnodup as [Hr Hnodup]. cbn [find].
  destruct Hin as [-> | Hin]; [rewrite Nat.eqb_refl; reflexivity |].
  destruct (Nat.eqb_spec (id r) (id rule)) as [Heq | Hne]; [| auto].
  exfalso. apply Hr. rewrite Heq. apply list_elem_of_In, in_map, Hin.
Qed.

Lemma evaluate_completed h clock liveData password (i : nat) :
  i ∈ newCompletedRules (evaluate h clock liveData password) ↔
  ∃ rule, In rule (rules h clock liveData) ∧ id rule = i
          ∧ reaches liveData rule = true ∧ validator rule password = true.
Proof. unfold evaluate. apply evaluateRules_completed. Qed.

Lemma evaluate_feedback h clock liveData password (i : nat) :
  newValidationFeedback (evaluate h clock liveData password) !! i =
  rule ← find (fun rule => (id rule =? i)%nat) (rules h clock liveData);
  feedbackEntry liveData password rule.
Proof. unfold evaluate. apply evaluateRules_feedback, rules_NoDup. Qed.

Lemma evaluate_calls h clock liveData password (call : Call) :
  In call (calls (evaluate h clock liveData password)) →
  ∃ rule, In rule (rules h clock liveData) ∧ reaches liveData rule = true
          ∧ (call = CallValidator (id rule) ∨ call = CallFeedback (id rule)).
Proof.
  unfold evaluate, evaluateRules. intros Hin.
  apply fold_evaluateRule_calls in Hin as [[] | Hin]. exact Hin.
Qed.

Lemma rules_id_inj h clock liveData (r1 r2 : Rule) :
  In r1 (rules h clock liveData) → In r2 (rules h clock liveData) →
  id r1 = id r2 → r1 = r2.
Proof.
  intros H1 H2 Hid.
  pose proof (find_id_In _ _ (rules_NoDup h clock liveData) H1) as Hf1.
  pose proof (find_id_In _ _ (rules_NoDup h clock liveData) H2) as Hf2.
  rewrite Hid in Hf1. congruence.
Qed.

(** C5.  Without live data, a rule of the catalog that requires it has
    neither its validator nor its feedback function called by the pass, is
    not in the satisfied set and has no feedback entry. *)
Theorem context_rules_skipped (h : Host) (clock : Clock) (password : jsstring)
    (rule : Rule) :
  In rule (rules h clock None) →
  requiresLiveData rule = true →
  (¬ In (CallValidator (id rule)) (calls (evaluate h clock None password)))
  ∧ (¬ In (CallFeedback (id rule)) (calls (evaluate h clock None password)))
  ∧ (id rule ∉ newCompletedRules (evaluate h clock None password))
  ∧ newValidationFeedback (evaluate h clock None password) !! id rule = None.
Proof.
  intros Hin Hlive.
  assert (reaches None rule = false) as Hskip.
  { unfold reaches. rewrite Hlive. reflexivity. }
  assert (∀ rule', In rule' (rules h clock None) → id rule' = id rule →
                   reaches None rule' = true → False) as Hother.
  { intros rule' Hin' Hid Hreach.
    rewrite (rules_id_inj _ _ _ _ _ Hin' Hin Hid) in Hreach. congruence. }
  assert (∀ call, (call = CallValidator (id rule) ∨ call = CallFeedback (id rule)) →
                  ¬ In call (calls (evaluate h clock None password))) as Hcalls.
  { intros call Hcall Hincall.
    apply evaluate_calls in Hincall as (rule' & Hin' & Hreach & Hcall').
    apply (Hother rule' Hin'); [| exact Hreach].
    destruct Hcall as [-> | ->], Hcall' as [Heq | Heq]; congruence. }
  split; [apply Hcalls; auto |]. split; [apply Hcalls; auto |]. split.
  - intros Hdone. apply evaluate_completed in Hdone
      as (rule' & Hin' & Hid & Hreach & _). exact (Hother rule' Hin' Hid Hreach).
  - rewrite evaluate_feedback.
    rewrite (find_id_In _ _ (rules_NoDup h clock None) Hin).
    cbn [mbind option_bind]. unfold feedbackEntry. rewrite Hskip. reflexivity.
Qed.

(** The geography rule while the live data are still absent. *)
Lemma context_rules_skipped_witness :
  (¬ In (CallValidator 21)
       (calls (evaluate asciiHost clockNoon None (lit "Duitsland"))))
  ∧ (¬ In (CallFeedback 21)
         (calls (evaluate asciiHost clockNoon None (lit "Duitsland"))))
  ∧ (21%nat ∉ newCompletedRules (evaluate asciiHost clockNoon None (lit "Duitsland")))
  ∧ newValidationFeedback (evaluate asciiHost clockNoon None (lit "Duitsland"))
      !! 21%nat = None.
Proof.
  apply (context_rules_skipped asciiHost clockNoon (lit "Duitsland")
           (mkLiveRule 21 (rule21_validator asciiHost None)
              (Some (rule21_feedback asciiHost None)))).
  - do 20 right. left. reflexivity.
  - reflexivity.
Defined.

(** ** The geography rule *)

Lemma rule21_In h clock liveData : In (rule21 h liveData) (rules h clock liveData).
Proof. do 20 right. left. reflexivity. Qed.

Lemma completed_21 h clock ld password :
  21%nat ∈ newCompletedRules (evaluate h clock (Some ld) password) ↔
  includes (toLowerCase h password) (toLowerCase h (countryName ld)) = true.
Proof.
  rewrite evaluate_completed. split.
  - intros (rule & Hin & Hid & _ & Hvalid).
    rewrite (rules_id_inj _ _ _ _ _ Hin (rule21_In h clock (Some ld)) Hid) in Hvalid.
    exact Hvalid.
  - intros Hvalid. exists (rule21 h (Some ld)).
    split; [apply rule21_In |]. repeat split. exact Hvalid.
Qed.

Lemma feedback_21 h clock ld password :
  newValidationFeedback (evaluate h clock (Some ld) password) !! 21%nat =
  if includes (toLowerCase h password) (toLowerCase h (countryName ld))
  then None
  else match rule21_feedback h (Some ld) password with
       | Some (c :: feedback) => Some (c :: feedback)
       | _ => None
       end.
Proof.
  rewrite evaluate_feedback.
  change (find _ (rules h clock (Some ld))) with (Some (rule21 h (Some ld))).
  cbn [mbind option_bind]. unfold feedbackEntry.
  change (reaches (Some ld) (rule21 h (Some ld))) with true.
  change (validator (rule21 h (Some ld)) password)
    with (includes (toLowerCase h password) (toLowerCase h (countryName ld))).
  destruct (includes _ _); reflexivity.
Qed.

Lemma array_includes_In (arr : list jsstring) (x : jsstring) :
  array_includes arr x = true ↔ In x arr.
Proof.
  unfold array_includes. rewrite existsb_exists. split.
  - intros (y & Hin & Heq). apply str_eqb_eq in Heq as ->. exact Hin.
  - intros Hin. exists x. split; [exact Hin | apply str_eqb_eq; reflexivity].
Qed.

Lemma rule21_feedback_wrong h ld password (country : jsstring) :
  In country countries →
  includes (toLowerCase h password) country = true →
  includes (toLowerCase h password) (toLowerCase h (countryName ld)) = false →
  ∃ found, In found countries
           ∧ includes (toLowerCase h password) found = true
           ∧ rule21_feedback h (Some ld) password
             = Some (found ++ lit " (Verkeerd land)").
Proof.
  intros Hin Hcountry Htarget. unfold rule21_feedback.
  set (foundCountries := List.filter _ countries).
  assert (In country foundCountries) as Hfound
    by (apply filter_In; split; assumption).
  assert (array_includes foundCountries (toLowerCase h (countryName ld)) = false)
    as ->.
  { apply not_true_is_false. rewrite array_includes_In. intros Hin'.
    apply filter_In in Hin' as [_ Hin']. congruence. }
  destruct foundCountries as [|found rest] eqn:Heq; [destruct Hfound |].
  assert (In found (List.filter (fun c => includes (toLowerCase h password) c) countries))
    as Hfirst by (fold foundCountries; rewrite Heq; left; reflexivity).
  apply filter_In in Hfirst as [? ?]. exists found. auto.
Qed.

(** C6.  With live data present: a candidate whose lowercase form contains
    the target country's name satisfies rule 21 and gets no feedback entry;
    a candidate that contains another country of the vocabulary and not
    the target's name leaves rule 21 unsatisfied and gets the feedback of
    a found country; a feedback entry never goes with a satisfied rule. *)
Theorem geography_feedback (h : Host) (clock : Clock) (ld : LiveData)
    (password : jsstring) :
  (includes (toLowerCase h password) (toLowerCase h (countryName ld)) = true →
     21%nat ∈ newCompletedRules (evaluate h clock (Some ld) password)
     ∧ newValidationFeedback (evaluate h clock (Some ld) password) !! 21%nat = None)
  ∧ (∀ country,
       In country countries →
       country ≠ toLowerCase h (countryName ld) →
       includes (toLowerCase h password) country = true →
       includes (toLowerCase h password) (toLowerCase h (countryName ld)) = false →
       (21%nat ∉ newCompletedRules (evaluate h clock (Some ld) password))
       ∧ ∃ found,
           In found countries
           ∧ includes (toLowerCase h password) found = true
           ∧ newValidationFeedback (evaluate h clock (Some ld) password) !! 21%nat
             = Some (found ++ lit " (Verkeerd land)"))
  ∧ (is_Some (newValidationFeedback (evaluate h clock (Some ld) password) !! 21%nat) →
     21%nat ∉ newCompletedRules (evaluate h clock (Some ld) password)).
Proof.
  split; [| split].
  - rewrite completed_21, feedback_21. intros ->. auto.
  - intros country Hin _ Hcountry Htarget.
    rewrite completed_21, feedback_21, Htarget.
    split; [discriminate |].
    destruct (rule21_feedback_wrong h ld password country Hin Hcountry Htarget)
      as (found & Hfound & Hincl & ->).
    exists found. repeat split; [assumption | assumption |].
    destruct found; reflexivity.
  - rewrite completed_21, feedback_21.
    destruct (includes _ _); [intros [? [=]] | discriminate].
Qed.

(** The target is nederland: a candidate naming it in capitals, and one
    naming duitsland. *)
Lemma geography_feedback_witness :
  (21%nat ∈ newCompletedRules
             (evaluate asciiHost clockNoon (Some exampleLiveData) (lit "NEDERLAND!"))
   ∧ newValidationFeedback
       (evaluate asciiHost clockNoon (Some exampleLiveData) (lit "NEDERLAND!"))
       !! 21%nat = None)
  ∧ ((21%nat ∉ newCompletedRules
                (evaluate asciiHost clockNoon (Some exampleLiveData) (lit "Duitsland?")))
     ∧ ∃ found,
         In found countries
         ∧ includes (toLowerCase asciiHost (lit "Duitsland?")) found = true
         ∧ newValidationFeedback
             (evaluate asciiHost clockNoon (Some exampleLiveData) (lit "Duitsland?"))
             !! 21%nat = Some (found ++ lit " (Verkeerd land)")).
Proof.
  split.
  - apply (proj1 (geography_feedback asciiHost clockNoon exampleLiveData
                    (lit "NEDERLAND!"))).
    reflexivity.
  - apply (proj1 (proj2 (geography_feedback asciiHost clockNoon exampleLiveData
                           (lit "Duitsland?"))) (lit "duitsland")).
    + right. left. reflexivity.
    + discriminate.
    + reflexivity.
    + reflexivity.
Defined.

(** ** Dependence of the pass on the clock *)

Lemma evaluateRule_ext liveData password acc (r1 r2 : Rule) :
  id r1 = id r2 → requiresLiveData r1 = requiresLiveData r2 →
  validationFeedback r1 = validationFeedback r2 →
  validator r1 password = validator r2 password →
  evaluateRule liveData password acc r1 = evaluateRule liveData password acc r2.
Proof.
  intros Hid Hlive Hfb Hvalid. unfold evaluateRule.
  rewrite Hid, Hlive, Hfb, Hvalid. reflexivity.
Qed.

Lemma fold_evaluateRule_feedback_congr liveData password (rs : list Rule) :
  ∀ acc1 acc2,
    newValidationFeedback acc1 = newValidationFeedback acc2 →
    newValidationFeedback (fold_left (evaluateRule liveData password) rs acc1)
    = newValidationFeedback (fold_left (evaluateRule liveData password) rs acc2).
Proof.
  induction rs as [|r rs IH]; intros acc1 acc2 Heq; [exact Heq |].
  cbn [fold_left]. apply IH. rewrite !evaluateRule_feedback, Heq. reflexivity.
Qed.

Lemma fold_evaluateRule_completed_congr liveData password (rs : list Rule)
    (P : nat → Prop) :
  ∀ acc1 acc2,
    (∀ i, P i → i ∈ newCompletedRules acc1 ↔ i ∈ newCompletedRules acc2) →
    ∀ i, P i →
      i ∈ newCompletedRules (fold_left (evaluateRule liveData password) rs acc1) ↔
      i ∈ newCompletedRules (fold_left (evaluateRule liveData password) rs acc2).
Proof.
  intros acc1 acc2 Hacc i Hi. rewrite !fold_evaluateRule_completed, (Hacc i Hi).
  reflexivity.
Qed.

(** The catalog around rule 15, the only entry that reads the clock. *)
Lemma rules_split h clock liveData :
  rules h clock liveData =
  firstn 14 (rules h clockNoon liveData)
  ++ mkRule 15 (rule15_validator h clock)
  :: skipn 15 (rules h clockNoon liveData).
Proof. reflexivity. Qed.

Lemma evaluate_split h clock liveData password :
  evaluate h clock liveData password =
  fold_left (evaluateRule liveData password)
    (skipn 15 (rules h clockNoon liveData))
    (evaluateRule liveData password
       (fold_left (evaluateRule liveData password)
          (firstn 14 (rules h clockNoon liveData)) emptyEvaluation)
       (mkRule 15 (rule15_validator h clock))).
Proof.
  unfold evaluate, evaluateRules. rewrite (rules_split h clock).
  generalize (firstn 14 (rules h clockNoon liveData)) as before.
  generalize (skipn 15 (rules h clockNoon liveData)) as after.
  intros after before. rewrite fold_left_app. reflexivity.
Qed.

Lemma evaluate_feedback_clock h c1 c2 liveData password :
  newValidationFeedback (evaluate h c1 liveData password)
  = newValidationFeedback (evaluate h c2 liveData password).
Proof.
  rewrite !evaluate_split. apply fold_evaluateRule_feedback_congr.
  rewrite !evaluateRule_feedback. unfold feedbackEntry.
  cbn [validationFeedback mkRule]. rewrite !Tauto.if_same. reflexivity.
Qed.

Lemma evaluate_completed_clock h c1 c2 liveData password (i : nat) :
  i ≠ 15%nat →
  i ∈ newCompletedRules (evaluate h c1 liveData password) ↔
  i ∈ newCompletedRules (evaluate h c2 liveData password).
Proof.
  rewrite !evaluate_split.
  apply (fold_evaluateRule_completed_congr _ _ _ (fun i => i ≠ 15%nat)).
  intros j Hj. rewrite !evaluateRule_completed. cbn [id mkRule].
  destruct (_ && _), (_ && _); try reflexivity;
    rewrite elem_of_union, elem_of_singleton; intuition.
Qed.

Lemma evaluate_same_verdict h c1 c2 liveData password :
  rule15_validator h c1 password = rule15_validator h c2 password →
  evaluate h c1 liveData password = evaluate h c2 liveData password.
Proof.
  intros Hsame. rewrite !evaluate_split.
  generalize (fold_left (evaluateRule liveData password)
                (firstn 14 (rules h clockNoon liveData)) emptyEvaluation) as acc.
  generalize (skipn 15 (rules h clockNoon liveData)) as after.
  intros after acc.
  rewrite (evaluateRule_ext liveData password acc
             (mkRule 15 (rule15_validator h c1))
             (mkRule 15 (rule15_validator h c2)));
    [reflexivity | reflexivity | reflexivity | reflexivity | exact Hsame].
Qed.

Lemma completed_15 h clock liveData password :
  15%nat ∈ newCompletedRules (evaluate h clock liveData password) ↔
  rule15_validator h clock password = true.
Proof.
  rewrite evaluate_completed. split.
  - intros (rule & Hin & Hid & _ & Hvalid).
    assert (In (mkRule 15 (rule15_validator h clock)) (rules h clock liveData))
      as Hin15 by (do 14 right; left; reflexivity).
    rewrite (rules_id_inj _ _ _ _ _ Hin Hin15 Hid) in Hvalid. exact Hvalid.
  - intros Hvalid. exists (mkRule 15 (rule15_validator h clock)).
    split; [do 14 right; left; reflexivity |]. repeat split. exact Hvalid.
Qed.

Lemma ruleEffect_completedRules h clock st :
  State.completedRules (ruleEffect h clock st)
  = newCompletedRules (evaluate h clock (State.liveData st) (State.password st)).
Proof.
  unfold ruleEffect. cbv zeta.
  generalize (evaluate h clock (State.liveData st) (State.password st)) as ev.
  intros ev. destruct (_ =? _)%nat; reflexivity.
Qed.

Lemma ruleEffect_validationFeedback h clock st :
  State.validationFeedback (ruleEffect h clock st)
  = newValidationFeedback (evaluate h clock (State.liveData st) (State.password st)).
Proof.
  unfold ruleEffect. cbv zeta.
  generalize (evaluate h clock (State.liveData st) (State.password st)) as ev.
  intros ev. destruct (_ =? _)%nat; reflexivity.
Qed.

(** C1, as the code has it.  The effect reads, besides the candidate and
    the live data, only the clock, and only through rule 15.  Two runs on
    states with the same candidate and live data, whatever their flags and
    clock readings, produce the same feedback map and satisfied sets that
    agree on every id other than 15; when rule 15 gives the same verdict at
    both readings the satisfied sets are equal. *)
Theorem evaluation_deterministic_up_to_clock (h : Host) (c1 c2 : Clock)
    (st1 st2 : State.t) :
  State.password st1 = State.password st2 →
  State.liveData st1 = State.liveData st2 →
  State.validationFeedback (ruleEffect h c1 st1)
    = State.validationFeedback (ruleEffect h c2 st2)
  ∧ (∀ i : nat, i ≠ 15%nat →
       i ∈ State.completedRules (ruleEffect h c1 st1) ↔
       i ∈ State.completedRules (ruleEffect h c2 st2))
  ∧ (rule15_validator h c1 (State.password st1)
       = rule15_validator h c2 (State.password st1) →
     State.completedRules (ruleEffect h c1 st1)
       = State.completedRules (ruleEffect h c2 st2)).
Proof.
  intros Hpassword HliveData.
  rewrite !ruleEffect_validationFeedback, !ruleEffect_completedRules.
  rewrite <- Hpassword, <- HliveData. split; [| split].
  - apply evaluate_feedback_clock.
  - intros i Hi. apply evaluate_completed_clock, Hi.
  - intros Hsame. rewrite (evaluate_same_verdict h c1 c2) by exact Hsame.
    reflexivity.
Qed.

(** Two states that differ in the mini-game flags, evaluated at noon and
    one second later. *)
Lemma evaluation_deterministic_up_to_clock_witness :
  State.validationFeedback
    (ruleEffect asciiHost clockNoon (State.setPassword (lit "12:00") State.init))
  = State.validationFeedback
      (ruleEffect asciiHost (clockAt 1772704801000)
         (State.setWordrowCompleted true
            (State.setPassword (lit "12:00") State.init))).
Proof.
  exact (proj1 (evaluation_deterministic_up_to_clock asciiHost clockNoon
                  (clockAt 1772704801000)
                  (State.setPassword (lit "12:00") State.init)
                  (State.setWordrowCompleted true
                     (State.setPassword (lit "12:00") State.init))
                  eq_refl eq_refl)).
Defined.

(** C1, as stated, fails: the same candidate, context and flags evaluated
    at 12:00 and at 13:00 give different satisfied sets, since rule 15
    compares the candidate with the current time. *)
Lemma evaluation_depends_on_clock :
  State.completedRules
    (ruleEffect asciiHost clockNoon (State.setPassword (lit "12:00") State.init))
  ≠ State.completedRules
      (ruleEffect asciiHost clockOne (State.setPassword (lit "12:00") State.init)).
Proof.
  rewrite !ruleEffect_completedRules. intros Heq.
  assert (15%nat ∈ newCompletedRules
            (evaluate asciiHost clockNoon
               (State.liveData (State.setPassword (lit "12:00") State.init))
               (State.password (State.setPassword (lit "12:00") State.init))))
    as Hin by (apply completed_15; reflexivity).
  rewrite Heq in Hin. apply completed_15 in Hin. discriminate Hin.
Qed.

(** ** The word-guessing mini-game: rejected guesses *)

(** C7.  When the dictionary check of a guess answers invalid, the round
    state is unchanged; when the check is reached (live data present,
    round not over, five code units), the handler changes nothing but the
    rejection message, which it sets to a non-empty text; a lookup that
    fails counts as invalid. *)
Theorem invalid_guess_rejected (h : Host) (st : State.t) (guess : jsstring)
    (response : FetchResult) :
  checkDutchWord h response (toUpperCase h guess) = false →
  State.wordleState (handleWordleGuess h guess response st) = State.wordleState st
  ∧ (is_Some (State.liveData st) →
     gameOver (State.wordleState st) = false →
     length guess = 5%nat →
     handleWordleGuess h guess response st
       = State.setWordleError wordleErrorMessage st
     ∧ State.wordleError (handleWordleGuess h guess response st)
       = wordleErrorMessage
     ∧ wordleErrorMessage ≠ [])
  ∧ checkDutchWord h FetchThrows (toUpperCase h guess) = false.
Proof.
  intros Hinvalid. unfold handleWordleGuess. split; [| split].
  - destruct (State.liveData st); [| reflexivity].
    destruct (_ || _); [reflexivity |]. rewrite Hinvalid. reflexivity.
  - intros [ld ->] -> ->. rewrite Hinvalid. repeat split. discriminate.
  - reflexivity.
Qed.

(** A five-letter guess while the lookup fails, and while the service
    answers with other words only. *)
Lemma invalid_guess_rejected_witness :
  let st :=
    State.setWordleState
      {| guesses := [lit "GROEN"]; currentGuess := lit "xyzzy"; gameWon := false;
         gameOver := false; maxGuesses := 6 |}
      (State.setLiveData (Some exampleLiveData) State.init) in
  guesses (State.wordleState (handleWordleGuess asciiHost (lit "xyzzy") FetchThrows st))
    = [lit "GROEN"]
  ∧ State.wordleError
      (handleWordleGuess asciiHost (lit "xyzzy")
         (FetchArray [EntryFalsy; EntryWoord (lit "water")]) st)
    = wordleErrorMessage.
Proof.
  intros st. split.
  - rewrite (proj1 (invalid_guess_rejected asciiHost st (lit "xyzzy") FetchThrows
                      eq_refl)).
    reflexivity.
  - apply (proj1 (proj2 (invalid_guess_rejected asciiHost st (lit "xyzzy")
                           (FetchArray [EntryFalsy; EntryWoord (lit "water")])
                           eq_refl))).
    + eexists. reflexivity.
    + reflexivity.
    + reflexivity.
Defined.

(** ** Refreshing the live data *)

Lemma pickRandom_In {A : Type} (draw : nat) (arr : list A) (dflt : A) :
  arr ≠ [] → In (pickRandom draw arr dflt) arr.
Proof.
  intros Hne. unfold pickRandom. apply nth_In.
  apply Nat.mod_upper_bound. destruct arr; [congruence | discriminate].
Qed.

(** C9.  A refresh with live data present keeps dayOfYear, dayOfWeek,
    zodiacSymbol, moonPhase, chessMove and chessPosition; it takes the
    temperature from the weather lookup, the country from the location
    table, the arithmetic problem and a five-letter word from their
    tables; it resets the mini-game and its error, and leaves the rest of
    the component state as it was. *)
Theorem refresh_frame (inputs : RefreshInputs) (st : State.t) (ld : LiveData) :
  State.liveData st = Some ld →
  ∃ ld',
    State.liveData (handleRefreshData inputs st) = Some ld'
    ∧ (dayOfYear ld' = dayOfYear ld ∧ dayOfWeek ld' = dayOfWeek ld
       ∧ zodiacSymbol ld' = zodiacSymbol ld ∧ moonPhase ld' = moonPhase ld
       ∧ chessMove ld' = chessMove ld ∧ chessPosition ld' = chessPosition ld)
    ∧ temperature ld' = fetchedTemperature inputs
    ∧ (∃ location, In location locations
                   ∧ countryCode ld' = code location
                   ∧ countryName ld' = name location
                   ∧ streetViewUrl ld' = locationStreetViewUrl location)
    ∧ In (mathProblem ld') problems
    ∧ (In (wordleWord ld') validDutchWords ∧ length (wordleWord ld') = 5%nat)
    ∧ State.wordleState (handleRefreshData inputs st) = initialWordleState
    ∧ State.wordleError (handleRefreshData inputs st) = []
    ∧ State.password (handleRefreshData inputs st) = State.password st
    ∧ State.completedRules (handleRefreshData inputs st) = State.completedRules st
    ∧ State.maxVisibleRule (handleRefreshData inputs st) = State.maxVisibleRule st
    ∧ State.validationFeedback (handleRefreshData inputs st)
      = State.validationFeedback st
    ∧ State.gameComplete (handleRefreshData inputs st) = State.gameComplete st
    ∧ State.wordrowCompleted (handleRefreshData inputs st)
      = State.wordrowCompleted st.
Proof.
  intros Hld. exists (refreshedLiveData inputs ld).
  unfold handleRefreshData. cbn [State.liveData State.setIsLoadingData].
  rewrite Hld. split; [reflexivity |]. split; [repeat split |].
  split; [reflexivity |]. split; [| split; [| split]].
  - eexists. split; [| repeat split].
    apply (pickRandom_In (locationDraw inputs) locations). discriminate.
  - apply (pickRandom_In (problemDraw inputs) problems). discriminate.
  - assert (In (wordleWord (refreshedLiveData inputs ld))
              (List.filter (fun word => (length word =? 5)%nat) validDutchWords))
      as Hin by (apply pickRandom_In; discriminate).
    apply filter_In in Hin as [Hin Hlen]. apply Nat.eqb_eq in Hlen. auto.
  - repeat split.
Qed.

(** A refresh of the example data that draws the third location, the
    second five-letter word and the fourth problem. *)
Lemma refresh_frame_witness :
  ∃ ld',
    State.liveData
      (handleRefreshData
         {| fetchedTemperature := 17; locationDraw := 2; wordDraw := 1;
            problemDraw := 3 |}
         (State.setLiveData (Some exampleLiveData) State.init)) = Some ld'
    ∧ dayOfYear ld' = 64 ∧ chessMove ld' = lit "Qb5+"
    ∧ countryName ld' = lit "frankrijk" ∧ wordleWord ld' = lit "LICHT".
Proof.
  destruct (refresh_frame
              {| fetchedTemperature := 17; locationDraw := 2; wordDraw := 1;
                 problemDraw := 3 |}
              (State.setLiveData (Some exampleLiveData) State.init)
              exampleLiveData eq_refl)
    as (ld' & Hld' & (Hday & _ & _ & _ & Hchess & _) & _).
  exists ld'. split; [exact Hld' |]. split; [exact Hday |].
  split; [exact Hchess |].
  injection Hld' as <-. split; reflexivity.
Defined.

(** ** The completion flag *)

Lemma ruleEffect_gameComplete h clock st :
  State.gameComplete (ruleEffect h clock st) =
  (size (newCompletedRules
           (evaluate h clock (State.liveData st) (State.password st))) =? 25)%nat
  || State.gameComplete st.
Proof.
  unfold ruleEffect. cbv zeta. rewrite rules_length.
  generalize (evaluate h clock (State.liveData st) (State.password st)) as ev.
  intros ev. destruct (_ =? _)%nat; reflexivity.
Qed.

Lemma handle_gameComplete h e st :
  State.gameComplete (handle h e st) = State.gameComplete st.
Proof.
  destruct e as [value | | [ld|] | inputs | value | response | |]; try reflexivity.
  - unfold handle, handleRefreshData. cbn [State.liveData State.setIsLoadingData].
    destruct (State.liveData st); reflexivity.
  - unfold handle, handleWordleGuess.
    destruct (State.liveData st); [| reflexivity].
    destruct (_ || _); [reflexivity |]. destruct (negb _); reflexivity.
Qed.

Lemma step_gameComplete h st ec :
  State.gameComplete st = true → State.gameComplete (step h st ec) = true.
Proof.
  intros Hdone. unfold step. destruct (depsChanged _ _ _).
  - rewrite ruleEffect_gameComplete, handle_gameComplete, Hdone.
    apply orb_true_r.
  - rewrite handle_gameComplete. exact Hdone.
Qed.

(** C10.  An effect run that finds all 25 rules satisfied sets the
    completion flag, and once the flag is set no sequence of events, each
    with its own clock reading, clears it. *)
Theorem gameComplete_latch (h : Host) (clock : Clock) (st : State.t)
    (trace : list (Event * Clock)) :
  size (newCompletedRules
          (evaluate h clock (State.liveData st) (State.password st))) = 25%nat →
  State.gameComplete (ruleEffect h clock st) = true
  ∧ State.gameComplete (run h (ruleEffect h clock st) trace) = true.
Proof.
  intros Hall.
  assert (State.gameComplete (ruleEffect h clock st) = true) as Hdone.
  { rewrite ruleEffect_gameComplete, Hall. reflexivity. }
  split; [exact Hdone |].
  unfold run. generalize dependent (ruleEffect h clock st).
  induction trace as [|ec trace IH]; intros st' Hdone; [exact Hdone |].
  cbn [fold_left]. apply IH, step_gameComplete, Hdone.
Qed.

(** ** The word-guessing mini-game: scoring *)

Lemma multiplicity_list_to_set_disj (c : char16) (s : jsstring) :
  multiplicity c (list_to_set_disj s) = countLetter c s.
Proof.
  unfold countLetter. induction s as [|x s IH]; [reflexivity |].
  rewrite list_to_set_disj_cons, multiplicity_disj_union, multiplicity_singleton, IH.
  cbn [List.filter]. unfold char_eqb at 2.
  destruct (N.eqb_spec x c) as [-> | Hne].
  - rewrite decide_True by reflexivity. reflexivity.
  - rewrite decide_False by congruence. reflexivity.
Qed.

Lemma countLetter_includes (c : char16) (s : jsstring) :
  includes s [c] = false → countLetter c s = 0%nat.
Proof.
  unfold countLetter. induction s as [|x s IH]; [reflexivity |].
  cbn [includes startsWith List.filter]. rewrite andb_true_r.
  unfold char_eqb. rewrite (N.eqb_sym x c).
  destruct (c =? x)%N; [discriminate |]. exact IH.
Qed.

Lemma spec_pass2_lookup (marked : list (char16 * bool)) :
  ∀ (remaining : gmultiset char16) (q : nat) (a : char16) (e : bool),
    marked !! q = Some (a, e) →
    spec_pass2 remaining marked !! q =
    Some (if e then Exact
          else if (nonExactCount a (take q marked) <? multiplicity a remaining)%nat
               then Partial else Absent).
Proof.
  induction marked as [|[x ex] marked IH]; intros remaining q a e Hq;
    [discriminate |].
  destruct q as [|q].
  - injection Hq as -> ->. destruct e; [reflexivity |]. cbn [spec_pass2].
    change (nonExactCount a (take 0 ((a, false) :: marked))) with 0%nat.
    case_bool_decide as Hin.
    + apply elem_of_multiplicity in Hin. apply Nat.ltb_lt in Hin as ->. reflexivity.
    + rewrite elem_of_multiplicity in Hin. apply Nat.ltb_nlt in Hin as ->. reflexivity.
  - cbn [lookup list_lookup] in Hq. destruct ex.
    + cbn [spec_pass2]. change ((Exact :: ?l) !! S q) with (l !! q).
      rewrite (IH remaining q a e Hq). unfold nonExactCount.
      cbn [take List.filter snd negb]. rewrite andb_false_r. reflexivity.
    + cbn [spec_pass2]. unfold nonExactCount in *.
      cbn [take List.filter fst snd negb]. rewrite andb_true_r.
      case_bool_decide as Hin.
      * change ((Partial :: ?l) !! S q) with (l !! q).
        rewrite (IH _ q a e Hq). destruct e; [reflexivity |].
        rewrite multiplicity_difference, multiplicity_singleton.
        apply elem_of_multiplicity in Hin. unfold char_eqb.
        destruct (N.eqb_spec x a) as [-> | Hne].
        -- rewrite decide_True by reflexivity. cbn [length].
           repeat match goal with |- context [(?u <? ?v)%nat] =>
             destruct (Nat.ltb_spec u v) end; first [reflexivity | lia].
        -- rewrite decide_False by congruence. rewrite Nat.sub_0_r. reflexivity.
      * change ((Absent :: ?l) !! S q) with (l !! q).
        rewrite (IH _ q a e Hq). destruct e; [reflexivity |].
        rewrite elem_of_multiplicity in Hin. unfold char_eqb.
        destruct (N.eqb_spec x a) as [-> | Hne]; [| reflexivity]. cbn [length].
        repeat match goal with |- context [(?u <? ?v)%nat] =>
          destruct (Nat.ltb_spec u v) end; first [reflexivity | lia].
Qed.

Lemma spec_pass2_length (marked : list (char16 * bool)) :
  ∀ remaining, length (spec_pass2 remaining marked) = length marked.
Proof.
  induction marked as [|[x [|]] marked IH]; intros remaining; cbn [spec_pass2];
    [reflexivity | cbn [length]; rewrite IH; reflexivity |].
  case_bool_decide; cbn [length]; rewrite IH; reflexivity.
Qed.

Lemma countLoop_S (k : nat) (test : nat → bool) :
  countLoop 0 (S k) test = (countLoop 0 k test + if test k then 1 else 0)%nat.
Proof.
  unfold countLoop. rewrite seq_S, List.filter_app, length_app.
  cbn [List.filter Nat.add]. destruct (test k); reflexivity.
Qed.

Lemma spec_pass1_lookup (guess target : jsstring) (i : nat) (a b : char16) :
  guess !! i = Some a → target !! i = Some b →
  spec_pass1 guess target !! i = Some (a, char_eqb a b).
Proof.
  intros Ha Hb. unfold spec_pass1. apply lookup_zip_with_Some.
  exists a, b. auto.
Qed.

Lemma countLoop_marked (guess target : jsstring) (test : nat → bool)
    (f : char16 * bool → bool) :
  length guess = length target →
  (∀ i a b, guess !! i = Some a → target !! i = Some b →
            test i = f (a, char_eqb a b)) →
  ∀ k, (k ≤ length guess)%nat →
       countLoop 0 k test = length (List.filter f (take k (spec_pass1 guess target))).
Proof.
  intros Hlen Htest. induction k as [|k IH]; intros Hk; [reflexivity |].
  destruct (lookup_lt_is_Some_2 guess k) as [a Ha]; [lia |].
  destruct (lookup_lt_is_Some_2 target k) as [b Hb]; [lia |].
  rewrite countLoop_S, IH by lia.
  rewrite (take_S_r _ _ _ (spec_pass1_lookup _ _ _ _ _ Ha Hb)).
  rewrite List.filter_app, length_app. cbn [List.filter].
  rewrite (Htest k a b Ha Hb). destruct (f _); reflexivity.
Qed.

Lemma spec_pass1_length (guess target : jsstring) :
  length guess = length target → length (spec_pass1 guess target) = length guess.
Proof.
  intros Hlen. unfold spec_pass1. rewrite length_zip_with. lia.
Qed.

Lemma exact_letters_count (c : char16) (marked : list (char16 * bool)) :
  countLetter c (List.filter snd marked).*1 = exactCount c marked.
Proof.
  unfold countLetter, exactCount.
  induction marked as [|[x [|]] marked IH]; [reflexivity | |].
  - cbn [List.filter snd fst fmap list_fmap]. rewrite andb_true_r.
    destruct (char_eqb x c); cbn [length]; rewrite <- IH; reflexivity.
  - cbn [List.filter snd fst]. rewrite andb_false_r. exact IH.
Qed.

Lemma getLetterStatus_position h ld guess (p : nat) (a b : char16) :
  length (toUpperCase h guess) = length (toUpperCase h (wordleWord ld)) →
  toUpperCase h guess !! p = Some a →
  toUpperCase h (wordleWord ld) !! p = Some b →
  map statusOf (spec_score (toUpperCase h guess) (toUpperCase h (wordleWord ld))) !! p
  = Some (getLetterStatus h (Some ld) p guess).
Proof.
  intros Hlen Ha Hb. unfold getLetterStatus, charAt.
  set (G := toUpperCase h guess) in *. set (T := toUpperCase h (wordleWord ld)) in *.
  rewrite Ha, Hb. unfold spec_score.
  rewrite list_lookup_fmap,
    (spec_pass2_lookup _ _ p a (char_eqb a b) (spec_pass1_lookup G T p a b Ha Hb)).
  cbn [fmap option_fmap option_map opt_char_eqb]. f_equal.
  destruct (char_eqb a b); [reflexivity |].
  rewrite multiplicity_difference, !multiplicity_list_to_set_disj, exact_letters_count.
  change (length (List.filter (fun l => opt_char_eqb (Some l) (Some a)) T))
    with (countLetter a T).
  rewrite (countLoop_marked G T _ (fun m => char_eqb m.1 a && m.2) Hlen)
    by (try lia; intros i x y -> ->; cbn [opt_char_eqb fst snd];
        unfold char_eqb; rewrite (N.eqb_sym y x); reflexivity).
  rewrite (countLoop_marked G T _ (fun m => char_eqb m.1 a && negb m.2) Hlen)
    by (try (apply Nat.lt_le_incl, lookup_lt_is_Some; eauto);
        intros i x y -> ->; cbn [opt_char_eqb fst snd];
        unfold char_eqb; rewrite (N.eqb_sym y x); reflexivity).
  rewrite (take_ge (spec_pass1 G T) (length G))
    by (rewrite spec_pass1_length by exact Hlen; lia).
  fold (exactCount a (spec_pass1 G T)).
  fold (nonExactCount a (take p (spec_pass1 G T))).
  fold (countLetter a T).
  destruct (includes T [a]) eqn:Hinc.
  - repeat match goal with |- context [(?u <? ?v)%nat] =>
      destruct (Nat.ltb_spec u v) end; first [reflexivity | lia].
  - rewrite (countLetter_includes a T Hinc). reflexivity.
Qed.

Lemma rowStatus_spec_score h ld guess :
  length (toUpperCase h guess) = 5%nat →
  length (toUpperCase h (wordleWord ld)) = 5%nat →
  rowStatus h (Some ld) guess
  = map statusOf (spec_score (toUpperCase h guess) (toUpperCase h (wordleWord ld))).
Proof.
  intros HG HT. apply list_eq. intros p. unfold rowStatus.
  destruct (decide (p < 5)%nat) as [Hp | Hp].
  - destruct (lookup_lt_is_Some_2 (toUpperCase h guess) p) as [a Ha]; [lia |].
    destruct (lookup_lt_is_Some_2 (toUpperCase h (wordleWord ld)) p) as [b Hb]; [lia |].
    rewrite (getLetterStatus_position h ld guess p a b) by (auto; lia).
    rewrite list_lookup_fmap, lookup_seq_lt by exact Hp. reflexivity.
  - rewrite !lookup_ge_None_2; [reflexivity | |].
    + rewrite length_map. unfold spec_score.
      rewrite spec_pass2_length, spec_pass1_length by lia. lia.
    + rewrite length_map, length_seq. lia.
Qed.

Lemma spec_pass2_credited (c : char16) (marked : list (char16 * bool)) :
  ∀ remaining,
    creditedCount c marked.*1 (spec_pass2 remaining marked)
    = (exactCount c marked
       + Nat.min (nonExactCount c marked) (multiplicity c remaining))%nat.
Proof.
  unfold creditedCount, exactCount, nonExactCount.
  induction marked as [|[x [|]] marked IH]; intros remaining; [reflexivity | |].
  - cbn [spec_pass2 fmap list_fmap fst snd zip zip_with List.filter credited negb].
    rewrite !andb_true_r, andb_false_r.
    destruct (char_eqb x c); cbn [length]; rewrite IH; reflexivity.
  - cbn [spec_pass2 fmap list_fmap fst snd List.filter negb].
    rewrite andb_true_r, andb_false_r. case_bool_decide as Hin.
    + cbn [zip zip_with List.filter fst snd credited]. rewrite andb_true_r.
      pose proof (proj1 (elem_of_multiplicity _ _) Hin) as Hpos.
      destruct (char_eqb x c) eqn:E; cbn [length];
        rewrite IH, multiplicity_difference, multiplicity_singleton.
      * apply char_eqb_eq in E. subst. rewrite decide_True by reflexivity. lia.
      * rewrite decide_False
          by (intros ->; rewrite char_eqb_refl in E; discriminate).
        lia.
    + cbn [zip zip_with List.filter fst snd credited]. rewrite andb_false_r.
      rewrite elem_of_multiplicity in Hin.
      destruct (char_eqb x c) eqn:E; cbn [length]; rewrite IH; [| lia].
      apply char_eqb_eq in E. subst. lia.
Qed.

Lemma spec_pass1_letters (guess : jsstring) :
  ∀ target, (length guess ≤ length target)%nat → (spec_pass1 guess target).*1 = guess.
Proof.
  induction guess as [|a guess IH]; intros [|b target] Hlen; try reflexivity.
  - simpl in Hlen. lia.
  - unfold spec_pass1 in *. cbn [zip_with fmap list_fmap fst]. f_equal.
    apply IH. simpl in Hlen. lia.
Qed.

Lemma spec_pass1_counts (c : char16) (guess : jsstring) :
  ∀ target,
    length guess = length target →
    (exactCount c (spec_pass1 guess target)
     + nonExactCount c (spec_pass1 guess target) = countLetter c guess
     ∧ exactCount c (spec_pass1 guess target) ≤ countLetter c target)%nat.
Proof.
  unfold exactCount, nonExactCount, countLetter, spec_pass1.
  induction guess as [|a guess IH]; intros [|b target] Hlen; try discriminate.
  - split; reflexivity.
  - injection Hlen as Hlen. destruct (IH target Hlen) as [Hsum Hle].
    cbn [zip_with List.filter fst snd].
    destruct (char_eqb a c) eqn:Eac, (char_eqb a b) eqn:Eab,
      (char_eqb b c) eqn:Ebc; cbn [andb negb length]; try lia.
    apply char_eqb_eq in Eac, Eab. subst.
    rewrite char_eqb_refl in Ebc. discriminate.
Qed.

Lemma spec_score_credited (c : char16) (guess target : jsstring) :
  length guess = length target →
  creditedCount c guess (spec_score guess target)
  = Nat.min (countLetter c guess) (countLetter c target).
Proof.
  intros Hlen. unfold spec_score.
  rewrite <- (spec_pass1_letters guess target) at 1 by lia.
  rewrite spec_pass2_credited.
  rewrite multiplicity_difference, !multiplicity_list_to_set_disj, exact_letters_count.
  destruct (spec_pass1_counts c guess target Hlen). lia.
Qed.

(** C2.  For a guess and a target of five code units after conversion to
    uppercase, the five classes of a grid row are those of the two-pass
    reference algorithm; hence, for every letter, the number of positions
    of the guess credited as Exact or Partial is the smaller of its number
    of occurrences in the guess and in the target. *)
Theorem rowStatus_two_pass (h : Host) (ld : LiveData) (guess : jsstring) :
  length (toUpperCase h guess) = 5%nat →
  length (toUpperCase h (wordleWord ld)) = 5%nat →
  rowStatus h (Some ld) guess
    = map statusOf
        (spec_score (toUpperCase h guess) (toUpperCase h (wordleWord ld)))
  ∧ ∀ c : char16,
      creditedCount c (toUpperCase h guess)
        (spec_score (toUpperCase h guess) (toUpperCase h (wordleWord ld)))
      = Nat.min (countLetter c (toUpperCase h guess))
                (countLetter c (toUpperCase h (wordleWord ld))).
Proof.
  intros HG HT. split.
  - apply rowStatus_spec_score; assumption.
  - intros c. apply spec_score_credited. congruence.
Qed.

(** The guess treat against the target WATER: the first T is Partial, the
    second is Absent. *)
Lemma rowStatus_two_pass_witness :
  rowStatus asciiHost (Some exampleLiveData) (lit "treat")
    = [BgYellow500; BgYellow500; BgYellow500; BgYellow500; BgGray400]
  ∧ creditedCount (N_of_ascii "T") (lit "TREAT")
      (spec_score (lit "TREAT") (lit "WATER")) = 1%nat.
Proof.
  destruct (rowStatus_two_pass asciiHost exampleLiveData (lit "treat")
              eq_refl eq_refl) as [Hrow Hcount].
  split.
  - rewrite Hrow. reflexivity.
  - exact (Hcount (N_of_ascii "T")).
Defined.

(** The example of the specification: ALLOW against WOOLS. *)
Example spec_score_ALLOW_WOOLS :
  spec_score (lit "ALLOW") (lit "WOOLS")
  = [Absent; Partial; Absent; Partial; Partial].
Proof. reflexivity. Qed.

(** The winning candidate entered at 19:59, then cleared, then the live
    data refreshed: the flag stays set while the visible count drops to
    zero. *)
Lemma gameComplete_latch_witness :
  State.gameComplete
    (ruleEffect asciiHost clockEvening
       (State.setPassword winningPassword
          (State.setLiveData (Some exampleLiveData) State.init))) = true
  ∧ State.gameComplete
      (run asciiHost
         (ruleEffect asciiHost clockEvening
            (State.setPassword winningPassword
               (State.setLiveData (Some exampleLiveData) State.init)))
         [ (ChangePassword [], clockOne);
           (RefreshData {| fetchedTemperature := 17; locationDraw := 2;
                           wordDraw := 1; problemDraw := 3 |}, clockOne) ])
    = true.
Proof.
  apply (gameComplete_latch asciiHost clockEvening
           (State.setPassword winningPassword
              (State.setLiveData (Some exampleLiveData) State.init))).
  vm_compute. reflexivity.
Defined.

(** The same session from mounting on, run event by event. *)
Example session_run :
  let final :=
    run asciiHost (mount asciiHost clockNoon)
      [ (FetchDataSettled (Some exampleLiveData), clockNoon);
        (ChangePassword winningPassword, clockEvening);
        (ChangePassword [], clockOne) ] in
  State.gameComplete final = true
  ∧ State.maxVisibleRule final = 0%nat
  ∧ State.completedRules final = {[ 4%nat ]}.
Proof. vm_compute. repeat split. Qed.

(** Sanity checks of the string model. *)
Example toString_examples :
  toString 64 = lit "64" ∧ toString 0 = lit "0" ∧ toString (-5) = lit "-5".
Proof. repeat split. Qed.

Example chess_pattern_examples :
  match_items chessNotationPattern (lit "play Qb5+ or Nxe4, a1e2 x")
    = Some [lit "Qb5+"; lit "Nxe4"; lit "a1e2"]
  ∧ match_items chessNotationPattern (lit "ab5 e4e5 Qa")
    = Some [lit "ab5"; lit "e4e5"].
Proof. split; reflexivity. Qed.

Example getCurrentTimeGMT2_examples :
  getCurrentTimeGMT2 asciiHost 1772704800000 = lit "12:00"
  ∧ getCurrentTimeGMT2 asciiHost 1772733540000 = lit "19:59"
  ∧ getCurrentTimeGMT2 asciiHost 1772665505000 = lit "01:05".
Proof. repeat split. Qed.

(** * Further properties of the component *)

(** ** The current time *)

Lemma padStart2_toString (v : Z) :
  0 <= v < 100 → padStart2 (toString v) = twoDigits v.
Proof.
  intros Hv.
  assert (forallb (fun n => str_eqb (padStart2 (toString (Z.of_nat n)))
                              (twoDigits (Z.of_nat n))) (seq 0 100) = true)
    as Hall by (vm_compute; reflexivity).
  rewrite forallb_forall in Hall.
  specialize (Hall (Z.to_nat v)). rewrite Z2Nat.id in Hall by lia.
  apply str_eqb_eq, Hall, in_seq. lia.
Qed.

Lemma formatHHMM_fixed (h : Host) (offset ms : Z) :
  (∀ t, getTimezoneOffset h t = offset) →
  Z.abs ms <= Date.maxTime →
  Date.formatHHMM h (Date.make (Some ms)) = wallClock (ms - offset * 60000).
Proof.
  intros Hzone Hvalid. unfold Date.formatHHMM, Date.make.
  apply Z.leb_le in Hvalid. rewrite Hvalid.
  unfold Date.getHours, Date.getMinutes, Date.numberToString, Date.localTime.
  rewrite Hzone. unfold wallClock.
  rewrite !padStart2_toString; [reflexivity | |];
    match goal with
    | |- 0 <= ?a mod ?b < _ => pose proof (Z.mod_pos_bound a b); lia
    end.
Qed.

Lemma getCurrentTimeGMT2_fixed (h : Host) (offset now : Z) :
  (∀ t, getTimezoneOffset h t = offset) →
  Z.abs (now + offset * 60000 + 7200000) <= Date.maxTime →
  getCurrentTimeGMT2 h now = wallClock (now + 7200000).
Proof.
  intros Hzone Hvalid. unfold getCurrentTimeGMT2. rewrite Hzone.
  change (2 * 60 * 60 * 1000) with 7200000.
  rewrite (formatHHMM_fixed h offset) by assumption. f_equal. lia.
Qed.

(** X1.  On a host whose zone offset does not change, the string
    [getCurrentTimeGMT2] builds is the UTC wall clock of the instant two
    hours after the reading, whatever the zone of the host: two digits, a
    colon, two digits. *)
Theorem getCurrentTimeGMT2_zone_independent (h : Host) (offset now : Z) :
  (∀ t, getTimezoneOffset h t = offset) →
  Z.abs (now + offset * 60000 + 7200000) <= Date.maxTime →
  getCurrentTimeGMT2 h now = wallClock (now + 7200000).
Proof.
  intros Hzone Hvalid. unfold getCurrentTimeGMT2. rewrite Hzone.
  change (2 * 60 * 60 * 1000) with 7200000.
  rewrite (formatHHMM_fixed h offset) by assumption. f_equal. lia.
Qed.

(** A reading at 23:05:05 UTC on the host of the examples. *)
Lemma getCurrentTimeGMT2_zone_independent_witness :
  getCurrentTimeGMT2 asciiHost 1772665505000 = lit "01:05".
Proof.
  rewrite (getCurrentTimeGMT2_zone_independent asciiHost (-60) 1772665505000).
  - reflexivity.
  - reflexivity.
  - unfold Date.maxTime. lia.
Defined.

(** X2.  On such a host rule 15 accepts exactly the candidates that
    contain the wall clock two hours after the first reading of the clock
    or the wall clock two hours and one minute after the second reading;
    the wall clock wraps from 23:59 to 00:00. *)
Theorem rule15_window (h : Host) (offset : Z) (clock : Clock) (pwd : jsstring) :
  (∀ t, getTimezoneOffset h t = offset) →
  Z.abs (nowInGetCurrentTime clock + offset * 60000 + 7200000) <= Date.maxTime →
  Z.abs (nowInValidator clock + offset * 60000 + 7260000) <= Date.maxTime →
  Z.abs (nowInValidator clock + offset * 60000 + 7200000) <= Date.maxTime →
  rule15_validator h clock pwd
  = includes pwd (wallClock (nowInGetCurrentTime clock + 7200000))
    || includes pwd (wallClock (nowInValidator clock + 7260000)).
Proof.
  intros Hzone Hfirst Hnext Hsecond. unfold rule15_validator.
  rewrite (getCurrentTimeGMT2_fixed h offset) by assumption.
  rewrite Hzone. change (2 * 60 * 60 * 1000) with 7200000.
  unfold Date.getTime, Date.make at 2.
  apply Z.leb_le in Hsecond. rewrite Hsecond. cbn [mbind option_bind].
  replace (nowInValidator clock + offset * 60000 + 7200000 + 60000)
    with (nowInValidator clock + offset * 60000 + 7260000) by lia.
  rewrite (formatHHMM_fixed h offset) by assumption.
  do 3 f_equal. lia.
Qed.

(** One second before midnight the candidate may hold 23:59 or 00:00. *)
Lemma rule15_window_witness :
  rule15_validator asciiHost (clockAt 1772747999000) (lit "x00:00y") = true
  ∧ rule15_validator asciiHost (clockAt 1772747999000) (lit "x23:59y") = true
  ∧ rule15_validator asciiHost (clockAt 1772747999000) (lit "x00:01y") = false.
Proof.
  assert (∀ pwd,
            rule15_validator asciiHost (clockAt 1772747999000) pwd
            = includes pwd (wallClock (1772747999000 + 7200000))
              || includes pwd (wallClock (1772747999000 + 7260000))) as Hwin.
  { intros pwd.
    apply (rule15_window asciiHost (-60) (clockAt 1772747999000) pwd);
      [reflexivity | | |]; unfold Date.maxTime; cbn; lia. }
  rewrite !Hwin. repeat split.
Defined.

(** ** Rules that follow from other rules *)

Lemma evaluate_completed_rule h clock liveData password (rule : Rule) :
  In rule (rules h clock liveData) → reaches liveData rule = true →
  id rule ∈ newCompletedRules (evaluate h clock liveData password) ↔
  validator rule password = true.
Proof.
  intros Hin Hreach. rewrite evaluate_completed. split.
  - intros (rule' & Hin' & Hid & _ & Hvalid).
    rewrite (rules_id_inj _ _ _ _ _ Hin' Hin Hid) in Hvalid. exact Hvalid.
  - intros Hvalid. exists rule. auto.
Qed.

Lemma includes_In (hay needle : jsstring) (c : char16) :
  includes hay needle = true → In c needle → In c hay.
Proof.
  intros Hincl Hin. apply includes_spec in Hincl as (pre & post & ->).
  apply in_or_app. right. apply in_or_app. left. exact Hin.
Qed.

Lemma formatHHMM_colon (h : Host) (d : Date.t) :
  In (N_of_ascii ":") (Date.formatHHMM h d).
Proof.
  unfold Date.formatHHMM. apply in_or_app. right. left. reflexivity.
Qed.

(** X3.  Whatever the host and the clock, a candidate that satisfies the
    time rule 15 satisfies the punctuation rule 3: both time strings the
    validator looks for contain a colon. *)
Theorem rule15_implies_rule3 (h : Host) (clock : Clock)
    (liveData : option LiveData) (password : jsstring) :
  15%nat ∈ newCompletedRules (evaluate h clock liveData password) →
  3%nat ∈ newCompletedRules (evaluate h clock liveData password).
Proof.
  rewrite (evaluate_completed_rule h clock liveData password
             (mkRule 15 (rule15_validator h clock)))
    by (first [reflexivity | do 14 right; left; reflexivity]).
  rewrite (evaluate_completed_rule h clock liveData password
             (mkRule 3 (fun pwd => test_class class_special pwd)))
    by (first [reflexivity | do 2 right; left; reflexivity]).
  cbn [validator mkRule]. unfold rule15_validator, getCurrentTimeGMT2.
  intros Htime. unfold test_class. apply existsb_exists.
  exists (N_of_ascii ":"). split; [| reflexivity].
  apply orb_true_iff in Htime as [Htime | Htime];
    exact (includes_In _ _ _ Htime (formatHHMM_colon h _)).
Qed.

(** The candidate 12:00 at noon. *)
Lemma rule15_implies_rule3_witness :
  3%nat ∈ newCompletedRules (evaluate asciiHost clockNoon None (lit "12:00")).
Proof.
  apply rule15_implies_rule3. apply completed_15. reflexivity.
Defined.

Lemma digits_sum_bound (digits : list char16) :
  Forall (fun c => class_digit c = true) digits →
  ∀ acc,
    fold_left (fun acc digit => acc + parseInt_digit digit)
      (map (fun c => [c]) digits) acc
    <= acc + 9 * Z.of_nat (length digits).
Proof.
  induction 1 as [|c digits Hc _ IH]; intros acc; [simpl; lia |].
  cbn [map fold_left length]. etransitivity; [apply IH |].
  unfold class_digit, in_range in Hc. apply andb_true_iff in Hc as [_ Hc].
  apply N.leb_le in Hc. change (N_of_ascii "9") with 57%N in Hc.
  unfold parseInt_digit. lia.
Qed.

Lemma match_class_filter (cls : char16 → bool) (s : jsstring) :
  default [] (match_class cls s) = map (fun c => [c]) (List.filter cls s).
Proof. unfold match_class. destruct (List.filter cls s); reflexivity. Qed.

Lemma rule7_validator_digitSum (pwd : jsstring) :
  rule7_validator pwd = true ↔ digitSum pwd = 50.
Proof.
  unfold rule7_validator, digitSum.
  destruct (match_class class_digit pwd) as [digits|]; cbn [default].
  - apply Z.eqb_eq.
  - split; discriminate.
Qed.

Lemma rule7_digits (pwd : jsstring) :
  rule7_validator pwd = true → (6 ≤ countClass class_digit pwd)%nat.
Proof.
  rewrite rule7_validator_digitSum. unfold digitSum, countClass.
  rewrite match_class_filter. intros Hsum.
  assert (Forall (fun c => class_digit c = true) (List.filter class_digit pwd))
    as Hdigits.
  { apply Forall_forall. intros c Hc. apply list_elem_of_In in Hc.
    apply filter_In in Hc as [_ Hc]. exact Hc. }
  pose proof (digits_sum_bound _ Hdigits 0) as Hbound.
  rewrite Hsum in Hbound. lia.
Qed.

(** X4.  A candidate whose digits sum to 50 (rule 7) has at least six
    digits; if it also has as many capitals as digits (rule 24) it has at
    least six capital letters. *)
Theorem rule7_rule24_six (h : Host) (clock : Clock)
    (liveData : option LiveData) (password : jsstring) :
  7%nat ∈ newCompletedRules (evaluate h clock liveData password) →
  (6 ≤ countClass class_digit password)%nat
  ∧ (24%nat ∈ newCompletedRules (evaluate h clock liveData password) →
     (6 ≤ countClass class_upper password)%nat).
Proof.
  rewrite (evaluate_completed_rule h clock liveData password
             (mkRule 7 rule7_validator))
    by (first [reflexivity | do 6 right; left; reflexivity]).
  rewrite (evaluate_completed_rule h clock liveData password
             (mkRule 24 rule24_validator))
    by (first [reflexivity | do 23 right; left; reflexivity]).
  cbn [validator mkRule]. intros H7. pose proof (rule7_digits password H7) as Hd.
  split; [exact Hd |]. unfold rule24_validator. rewrite !match_class_filter.
  rewrite !length_map. fold (countClass class_upper password).
  fold (countClass class_digit password).
  intros H24. apply andb_true_iff in H24 as [Heq _].
  apply Nat.eqb_eq in Heq. lia.
Qed.

(** The winning candidate has nine digits and nine capitals. *)
Lemma rule7_rule24_six_witness :
  (6 ≤ countClass class_digit winningPassword)%nat
  ∧ (6 ≤ countClass class_upper winningPassword)%nat.
Proof.
  assert (∀ i : nat, (1 ≤ i ≤ 25)%nat →
            i ∈ newCompletedRules
                  (evaluate asciiHost clockEvening (Some exampleLiveData)
                     winningPassword)) as Hall.
  { intros i Hi.
    assert (bool_decide
              (list_to_set (seq 1 25) ⊆
               newCompletedRules
                 (evaluate asciiHost clockEvening (Some exampleLiveData)
                    winningPassword)) = true) as Hsub
      by (vm_compute; reflexivity).
    apply bool_decide_eq_true in Hsub. apply Hsub.
    apply elem_of_list_to_set, list_elem_of_In, in_seq. lia. }
  destruct (rule7_rule24_six asciiHost clockEvening (Some exampleLiveData)
              winningPassword (Hall 7%nat ltac:(lia))) as [Hd Hu].
  split; [exact Hd | apply Hu, Hall; lia].
Defined.

Lemma problems_answer (problem : MathProblem) :
  In problem problems → answer problem = 4.
Proof.
  intros Hin. unfold problems in Hin. cbn [In] in Hin.
  repeat (destruct Hin as [<- | Hin]; [reflexivity |]). destruct Hin.
Qed.

(** X5.  With live data present, a candidate that contains 64 (rule 19)
    contains a digit (rule 5), and satisfies the arithmetic rule 23
    whenever the answer is 4; the live data a refresh produces always
    have the answer 4. *)
Theorem rule19_implies_rule5_rule23 (h : Host) (clock : Clock) (ld : LiveData)
    (password : jsstring) :
  (19%nat ∈ newCompletedRules (evaluate h clock (Some ld) password) →
   5%nat ∈ newCompletedRules (evaluate h clock (Some ld) password)
   ∧ (answer (mathProblem ld) = 4 →
      23%nat ∈ newCompletedRules (evaluate h clock (Some ld) password)))
  ∧ ∀ inputs ld0, answer (mathProblem (refreshedLiveData inputs ld0)) = 4.
Proof.
  split.
  - rewrite (evaluate_completed_rule h clock (Some ld) password
               (mkRule 19 (fun pwd => includes pwd (lit "64"))))
      by (first [reflexivity | do 18 right; left; reflexivity]).
    rewrite (evaluate_completed_rule h clock (Some ld) password
               (mkRule 5 (fun pwd => test_class class_digit pwd)))
      by (first [reflexivity | do 4 right; left; reflexivity]).
    rewrite (evaluate_completed_rule h clock (Some ld) password
               (mkLiveRule 23
                  (includesLive (Some ld)
                     (fun ld => toString (answer (mathProblem ld)))) None))
      by (first [reflexivity | do 22 right; left; reflexivity]).
    cbn [validator mkRule mkLiveRule includesLive]. intros H64. split.
    + unfold test_class. apply existsb_exists. exists (N_of_ascii "6").
      split; [| reflexivity]. apply (includes_In _ _ _ H64). left. reflexivity.
    + intros ->. apply includes_spec in H64 as (pre & post & ->).
      apply includes_spec. exists (pre ++ lit "6"), post.
      rewrite <- !app_assoc. reflexivity.
  - intros inputs ld0. apply problems_answer.
    apply (pickRandom_In (problemDraw inputs) problems). discriminate.
Qed.

(** A candidate with 64 and the example data. *)
Lemma rule19_implies_rule5_rule23_witness :
  5%nat ∈ newCompletedRules
            (evaluate asciiHost clockOne (Some exampleLiveData) (lit "rood64"))
  ∧ 23%nat ∈ newCompletedRules
               (evaluate asciiHost clockOne (Some exampleLiveData) (lit "rood64")).
Proof.
  assert (19%nat ∈ newCompletedRules
            (evaluate asciiHost clockOne (Some exampleLiveData) (lit "rood64")))
    as H19.
  { apply (evaluate_completed_rule asciiHost clockOne (Some exampleLiveData)
             (lit "rood64") (mkRule 19 (fun pwd => includes pwd (lit "64"))));
      [do 18 right; left; reflexivity | reflexivity | reflexivity]. }
  destruct (proj1 (rule19_implies_rule5_rule23 asciiHost clockOne
                     exampleLiveData (lit "rood64")) H19) as (H5 & H23).
  split; [exact H5 | apply H23; reflexivity].
Defined.

(** ** The chess feedback of rule 22 *)

Lemma matchItems_prefix (items : list RegexItem) :
  ∀ (s m : jsstring),
    matchItems items s = Some m →
    (∃ post, s = m ++ post)
    ∧ (mandatoryItems items ≤ length m ≤ length items)%nat.
Proof.
  unfold mandatoryItems.
  induction items as [|[cls | cls] items IH]; intros s m Hm.
  - injection Hm as <-. split; [exists s; reflexivity | simpl; lia].
  - cbn [matchItems] in Hm. cbn [List.filter length].
    assert (matchItems items s = Some m →
            (∃ post, s = m ++ post)
            ∧ (length (List.filter
                         (fun item => match item with
                                      | Mandatory _ => true
                                      | Optional _ => false
                                      end) items) ≤ length m ≤ S (length items))%nat)
      as Hskip.
    { intros Hm'. destruct (IH _ _ Hm') as [Hpost Hlen]. split; [exact Hpost | lia]. }
    destruct s as [|c s]; [exact (Hskip Hm) |].
    destruct (cls c); [| exact (Hskip Hm)].
    destruct (matchItems items s) as [m'|] eqn:Hm'; [| exact (Hskip Hm)].
    injection Hm as <-. destruct (IH _ _ Hm') as [[post ->] Hlen].
    split; [exists post; reflexivity | simpl; lia].
  - cbn [matchItems] in Hm. cbn [List.filter length].
    destruct s as [|c s]; [discriminate |].
    destruct (cls c); [| discriminate].
    destruct (matchItems items s) as [m'|] eqn:Hm'; [| discriminate].
    injection Hm as <-. destruct (IH _ _ Hm') as [[post ->] Hlen].
    split; [exists post; reflexivity | simpl; lia].
Qed.

Lemma scanItems_In (items : list RegexItem) (s : jsstring) :
  ∀ (skip : nat) (m : jsstring),
    In m (scanItems items skip s) →
    ∃ pre post, s = pre ++ m ++ post ∧ matchItems items (m ++ post) = Some m.
Proof.
  induction s as [|c s IH]; intros skip m Hin.
  - cbn [scanItems] in Hin. destruct skip; [| destruct Hin].
    destruct (matchItems items []) as [m0|] eqn:Hm0; [| destruct Hin].
    destruct Hin as [<- | []].
    destruct (matchItems_prefix _ _ _ Hm0) as [[post Hpost] _].
    symmetry in Hpost. apply app_eq_nil in Hpost as [-> ->].
    exists [], []. split; [reflexivity | exact Hm0].
  - cbn [scanItems] in Hin. destruct skip as [|skip].
    + destruct (matchItems items (c :: s)) as [m0|] eqn:Hm0.
      * destruct Hin as [<- | Hin].
        -- destruct (matchItems_prefix _ _ _ Hm0) as [[post Hpost] _].
           exists [], post. split; [exact Hpost | rewrite <- Hpost; exact Hm0].
        -- destruct (IH _ _ Hin) as (pre & post & -> & Hm).
           exists (c :: pre), post. split; [reflexivity | exact Hm].
      * destruct (IH _ _ Hin) as (pre & post & -> & Hm).
        exists (c :: pre), post. split; [reflexivity | exact Hm].
    + destruct (IH _ _ Hin) as (pre & post & -> & Hm).
      exists (c :: pre), post. split; [reflexivity | exact Hm].
Qed.

Lemma feedback_22 h clock ld password :
  newValidationFeedback (evaluate h clock (Some ld) password) !! 22%nat =
  if includes password (chessMove ld)
  then None
  else match rule22_feedback (Some ld) password with
       | Some (c :: feedback) => Some (c :: feedback)
       | _ => None
       end.
Proof.
  rewrite evaluate_feedback.
  change (find _ (rules h clock (Some ld)))
    with (Some (mkLiveRule 22 (includesLive (Some ld) chessMove)
                  (Some (rule22_feedback (Some ld))))).
  cbn [mbind option_bind]. unfold feedbackEntry.
  change (reaches (Some ld) (mkLiveRule 22 _ _)) with true.
  cbn [validator validationFeedback mkLiveRule includesLive andb].
  destruct (includes _ _); reflexivity.
Qed.

(** X6.  With live data present: a candidate that contains the best move
    satisfies rule 22 and gets no feedback entry; a feedback entry for
    rule 22 only goes with an unsatisfied rule, and it names a move that
    differs from the best move, has two to seven code units, matches the
    notation pattern and stands in the candidate. *)
Theorem chess_feedback (h : Host) (clock : Clock) (ld : LiveData)
    (password : jsstring) :
  (includes password (chessMove ld) = true →
     22%nat ∈ newCompletedRules (evaluate h clock (Some ld) password)
     ∧ newValidationFeedback (evaluate h clock (Some ld) password) !! 22%nat = None)
  ∧ ∀ entry,
      newValidationFeedback (evaluate h clock (Some ld) password) !! 22%nat
        = Some entry →
      (22%nat ∉ newCompletedRules (evaluate h clock (Some ld) password))
      ∧ ∃ move pre post,
          entry = move ++ lit " (Illegale zet)"
          ∧ password = pre ++ move ++ post
          ∧ matchItems chessNotationPattern (move ++ post) = Some move
          ∧ move ≠ chessMove ld
          ∧ (2 ≤ length move ≤ 7)%nat.
Proof.
  assert (22%nat ∈ newCompletedRules (evaluate h clock (Some ld) password) ↔
          includes password (chessMove ld) = true) as Hdone.
  { apply (evaluate_completed_rule h clock (Some ld) password
             (mkLiveRule 22 (includesLive (Some ld) chessMove)
                (Some (rule22_feedback (Some ld)))));
      [do 21 right; left; reflexivity | reflexivity]. }
  split.
  - intros Hmove. rewrite Hdone, feedback_22, Hmove. auto.
  - intros entry. rewrite Hdone, feedback_22.
    destruct (includes password (chessMove ld)); [discriminate |].
    intros Hentry. split; [discriminate |].
    unfold rule22_feedback, match_items in Hentry.
    destruct (scanItems chessNotationPattern 0 password) as [|m0 ms] eqn:Hscan;
      [discriminate |].
    destruct (List.filter _ (m0 :: ms)) as [|move rest] eqn:Hfilter;
      [discriminate |].
    assert (In move (List.filter
                       (fun move => negb (str_eqb move (chessMove ld)))
                       (m0 :: ms))) as Hin
      by (rewrite Hfilter; left; reflexivity).
    apply filter_In in Hin as [Hin Hne]. rewrite <- Hscan in Hin.
    destruct (scanItems_In _ _ _ _ Hin) as (pre & post & Hpwd & Hmatch).
    exists move, pre, post.
    assert (move ++ lit " (Illegale zet)" = entry) as <-.
    { destruct move as [|x move];
        [vm_compute in Hentry |- * | cbn [app] in Hentry |- *]; congruence. }
    split; [reflexivity |]. split; [exact Hpwd |]. split; [exact Hmatch |].
    split.
    + intros ->. rewrite (proj2 (str_eqb_eq _ _) eq_refl) in Hne. discriminate.
    + destruct (matchItems_prefix _ _ _ Hmatch) as [_ Hlen]. exact Hlen.
Qed.

(** The best move without its check sign is reported as an illegal move. *)
Lemma chess_feedback_witness :
  (22%nat ∈ newCompletedRules
              (evaluate asciiHost clockNoon (Some exampleLiveData) (lit "zetQb5+"))
   ∧ newValidationFeedback
       (evaluate asciiHost clockNoon (Some exampleLiveData) (lit "zetQb5+"))
       !! 22%nat = None)
  ∧ newValidationFeedback
      (evaluate asciiHost clockNoon (Some exampleLiveData) (lit "zet Qb5!"))
      !! 22%nat = Some (lit "Qb5 (Illegale zet)").
Proof.
  split.
  - apply (proj1 (chess_feedback asciiHost clockNoon exampleLiveData
                    (lit "zetQb5+"))).
    reflexivity.
  - rewrite feedback_22. reflexivity.
Defined.

(** ** The zodiac table *)

Ltac split_leb :=
  repeat match goal with
         | |- context [(?a <=? ?b)] => destruct (Z.leb_spec a b); try lia
         | H : context [(?a <=? ?b)] |- _ => destruct (Z.leb_spec a b); try lia
         end.

Lemma signMatches_unique (month day : Z) (s1 s2 : ZodiacSign) :
  In s1 zodiacSigns → In s2 zodiacSigns →
  signMatches month day s1 = true → signMatches month day s2 = true → s1 = s2.
Proof.
  unfold zodiacSigns. cbn [In]. intros H1 H2.
  repeat (destruct H1 as [<- | H1]); try (destruct H1);
    repeat (destruct H2 as [<- | H2]); try (destruct H2);
    try reflexivity;
    unfold signMatches; cbn [start end_];
    intros M1 M2; exfalso;
    apply orb_true_iff in M1 as [M1 | M1], M2 as [M2 | M2];
    apply andb_true_iff in M1 as [E1 L1], M2 as [E2 L2];
    apply Z.eqb_eq in E1, E2; apply Z.leb_le in L1, L2; lia.
Qed.

Lemma zodiacLoop_first (month day : Z) (signs : list ZodiacSign)
    (dflt : jsstring) (sign : ZodiacSign) :
  In sign signs → signMatches month day sign = true →
  (∀ s, In s signs → signMatches month day s = true → s = sign) →
  zodiacLoop month day signs dflt = symbol sign.
Proof.
  induction signs as [|s signs IH]; intros Hin Hm Huniq; [destruct Hin |].
  cbn [zodiacLoop]. destruct (signMatches month day s) eqn:Hs.
  - rewrite (Huniq s (or_introl eq_refl) Hs). reflexivity.
  - destruct Hin as [-> | Hin]; [congruence |].
    apply IH; [exact Hin | exact Hm |]. intros s' Hs'. apply Huniq. right. exact Hs'.
Qed.

(** X7.  For every month from 1 to 12 and every day number, exactly one
    sign of the table matches the date, and the loop returns its symbol:
    the ranges neither overlap nor leave a gap, so neither the order of
    the table nor the initial symbol decides a result. *)
Theorem zodiac_table_partition (month day : Z) :
  1 <= month <= 12 →
  ∃ sign,
    In sign zodiacSigns
    ∧ signMatches month day sign = true
    ∧ zodiacSymbolOf month day = symbol sign
    ∧ ∀ other, In other zodiacSigns → signMatches month day other = true →
               other = sign.
Proof.
  intros Hmonth.
  assert (∃ sign, In sign zodiacSigns ∧ signMatches month day sign = true)
    as (sign & Hin & Hm).
  { assert (existsb (signMatches month day) zodiacSigns = true) as Hex.
    { assert (month = 1 ∨ month = 2 ∨ month = 3 ∨ month = 4 ∨ month = 5
              ∨ month = 6 ∨ month = 7 ∨ month = 8 ∨ month = 9 ∨ month = 10
              ∨ month = 11 ∨ month = 12) as Hcases by lia.
      unfold zodiacSigns, signMatches. cbn [existsb start end_].
      repeat (destruct Hcases as [-> | Hcases]); try subst month;
        cbn [Z.eqb Pos.eqb andb orb]; split_leb; reflexivity. }
    apply existsb_exists in Hex. exact Hex. }
  exists sign. split; [exact Hin |]. split; [exact Hm |].
  assert (∀ other, In other zodiacSigns → signMatches month day other = true →
                   other = sign) as Huniq.
  { intros other Hother Hmo. exact (signMatches_unique month day _ _ Hother Hin Hmo Hm). }
  split; [| exact Huniq].
  unfold zodiacSymbolOf. apply zodiacLoop_first; assumption.
Qed.

(** 5 March falls in the third sign and 22 December in the first. *)
Lemma zodiac_table_partition_witness :
  zodiacSymbolOf 3 5 = zodiacSymbol exampleLiveData
  ∧ ∃ sign, In sign zodiacSigns ∧ zodiacSymbolOf 12 22 = symbol sign
            ∧ start sign = (12, 22).
Proof.
  split; [reflexivity |].
  destruct (zodiac_table_partition 12 22 ltac:(lia))
    as (sign & Hin & Hm & Hsym & Huniq).
  exists sign. split; [exact Hin |]. split; [exact Hsym |].
  rewrite <- (Huniq (mkSign (12, 22) (1, 19) [8218; 244; 235]%N));
    [reflexivity | left; reflexivity | reflexivity].
Defined.

(** ** The highlighting overlay *)

Lemma pushSlice_text (text : jsstring) (parts : list Part) :
  concat (map partText (pushSlice text parts)) = text ++ concat (map partText parts).
Proof. destruct text; reflexivity. Qed.


Lemma highlightLoop_text (s : jsstring) :
  ∀ index text run,
    concat (map partText (highlightLoop index text run s)) = text ++ run ++ s.
Proof.
  induction s as [|c s IH]; intros index text run; cbn [highlightLoop].
  - destruct run; rewrite pushSlice_text; cbn [map concat partText];
      rewrite ?app_nil_r; reflexivity.
  - destruct (class_roman c).
    + rewrite IH, <- app_assoc. reflexivity.
    + destruct run as [|r run].
      * rewrite IH, <- app_assoc. reflexivity.
      * rewrite pushSlice_text. cbn [map concat partText]. rewrite IH.
        reflexivity.
Qed.


Lemma pushSlice_wellFormed (pwd text : jsstring) (parts : list Part) :
  Forall (fun c => class_roman c = false) text →
  Forall (partWellFormed pwd) parts →
  Forall (partWellFormed pwd) (pushSlice text parts).
Proof.
  intros Htext Hparts. destruct text; [exact Hparts |].
  constructor; [exact Htext | exact Hparts].
Qed.

Lemma span_wellFormed (before text run rest : jsstring) (index : nat) :
  index = length (before ++ text ++ run) →
  run ≠ [] → Forall (fun c => class_roman c = true) run →
  partWellFormed (before ++ text ++ run ++ rest)
    (SpanPart (index - length run) run (romanValue run)).
Proof.
  intros -> Hne Hroman. split; [exact Hne |]. split; [exact Hroman |]. split.
  - rewrite !length_app.
    replace (length before + (length text + length run) - length run)%nat
      with (length (before ++ text)) by (rewrite length_app; lia).
    rewrite (app_assoc before text), drop_app_length.
    apply take_app_length.
  - apply romanValue_roman, Hroman.
Qed.

Lemma highlightLoop_wellFormed (s : jsstring) :
  ∀ before text run index,
    index = length (before ++ text ++ run) →
    Forall (fun c => class_roman c = false) text →
    Forall (fun c => class_roman c = true) run →
    Forall (partWellFormed (before ++ text ++ run ++ s))
      (highlightLoop index text run s).
Proof.
  induction s as [|c s IH]; intros before text run index Hindex Htext Hrun;
    cbn [highlightLoop].
  - destruct run as [|r run].
    + apply pushSlice_wellFormed; [exact Htext | constructor].
    + apply pushSlice_wellFormed; [exact Htext |]. constructor; [| constructor].
      apply span_wellFormed; [exact Hindex | discriminate | exact Hrun].
  - destruct (class_roman c) eqn:Hc.
    + replace (before ++ text ++ run ++ c :: s)
        with (before ++ text ++ (run ++ [c]) ++ s)
        by (rewrite <- (app_assoc run); reflexivity).
      apply IH.
      * rewrite Hindex, !length_app. simpl. lia.
      * exact Htext.
      * apply Forall_app. split; [exact Hrun | repeat constructor; exact Hc].
    + destruct run as [|r run].
      * replace (before ++ text ++ [] ++ c :: s)
          with (before ++ (text ++ [c]) ++ [] ++ s)
          by (rewrite <- (app_assoc text); reflexivity).
        apply IH.
        -- rewrite Hindex, !length_app. simpl. lia.
        -- apply Forall_app. split; [exact Htext | repeat constructor; exact Hc].
        -- constructor.
      * apply pushSlice_wellFormed; [exact Htext |]. constructor.
        -- apply span_wellFormed; [exact Hindex | discriminate | exact Hrun].
        -- replace (before ++ text ++ (r :: run) ++ c :: s)
             with ((before ++ text ++ r :: run) ++ [c] ++ [] ++ s)
             by (rewrite <- !app_assoc; reflexivity).
           apply IH.
           ++ rewrite Hindex, !length_app. simpl. lia.
           ++ repeat constructor. exact Hc.
           ++ constructor.
Qed.

Lemma highlightLoop_no_roman (s : jsstring) :
  Forall (fun c => class_roman c = false) s →
  ∀ index text, highlightLoop index text [] s = pushSlice (text ++ s) [].
Proof.
  induction 1 as [|c s Hc _ IH]; intros index text; cbn [highlightLoop].
  - rewrite app_nil_r. reflexivity.
  - rewrite Hc, IH, <- app_assoc. reflexivity.
Qed.

Lemma highlightLoop_all_roman (s : jsstring) :
  Forall (fun c => class_roman c = true) s →
  ∀ index text run,
    run ++ s ≠ [] →
    ∃ key, highlightLoop index text run s
           = pushSlice text [SpanPart key (run ++ s) (romanValue (run ++ s))].
Proof.
  induction 1 as [|c s Hc _ IH]; intros index text run Hne; cbn [highlightLoop].
  - rewrite app_nil_r in *. destruct run; [congruence | eauto].
  - rewrite Hc.
    destruct (IH (S index) text (run ++ [c])) as [key Hkey].
    + destruct run; discriminate.
    + rewrite <- app_assoc in Hkey. eauto.
Qed.

Lemma existsb_false_Forall (cls : char16 → bool) (s : jsstring) :
  existsb cls s = false ↔ Forall (fun c => cls c = false) s.
Proof.
  induction s as [|c s IH]; cbn [existsb].
  - split; [constructor | reflexivity].
  - rewrite orb_false_iff, IH. split.
    + intros [? ?]. constructor; assumption.
    + intros Hall. apply Forall_cons in Hall. exact Hall.
Qed.

Lemma highlightLoop_mixed (pwd : jsstring) :
  existsb class_roman pwd = true →
  existsb (fun c => negb (class_roman c)) pwd = true →
  (1 < length (highlightLoop 0 [] [] pwd))%nat.
Proof.
  intros Hroman Hother.
  apply existsb_exists in Hroman as (r & Hr & Hrc).
  apply existsb_exists in Hother as (o & Ho & Hoc).
  apply negb_true_iff in Hoc.
  pose proof (highlightLoop_wellFormed pwd [] [] [] 0%nat eq_refl
                (List.Forall_nil _) (List.Forall_nil _)) as Hwf.
  pose proof (highlightLoop_text pwd 0 [] []) as Htext.
  cbn [app] in Hwf, Htext.
  destruct (highlightLoop 0 [] [] pwd) as [|p1 [|p2 rest]]; [| | simpl; lia].
  - cbn in Htext. subst pwd. destruct Hr.
  - cbn [map concat] in Htext. rewrite app_nil_r in Htext.
    apply Forall_cons in Hwf as [Hp1 _]. exfalso.
    destruct p1 as [text | key romanText value]; cbn [partText] in Htext; subst pwd.
    + cbn [partWellFormed] in Hp1. rewrite Forall_forall in Hp1.
      apply list_elem_of_In in Hr. specialize (Hp1 r Hr). congruence.
    + destruct Hp1 as (_ & Hp1 & _). rewrite Forall_forall in Hp1.
      apply list_elem_of_In in Ho. specialize (Hp1 o Ho). congruence.
Qed.


(** X8.  The overlay decorates a password exactly when rule 14 is visible
    and not marked satisfied and the password holds both a Roman letter
    and another character; otherwise it returns the password as it is.
    A password made of Roman letters only is therefore not decorated. *)
Theorem highlight_only_mixed (maxVisibleRule : nat) (completedRules : gset nat)
    (pwd : jsstring) :
  highlightRomanNumerals maxVisibleRule completedRules pwd =
  if (14 <=? maxVisibleRule)%nat
     && negb (bool_decide (14%nat ∈ completedRules))
     && existsb class_roman pwd
     && existsb (fun c => negb (class_roman c)) pwd
  then Decorated (highlightLoop 0 [] [] pwd)
  else Unchanged pwd.
Proof.
  unfold highlightRomanNumerals. destruct pwd as [|c pwd].
  - rewrite !andb_false_r. reflexivity.
  - destruct (14 <=? maxVisibleRule)%nat; [| reflexivity].
    destruct (bool_decide (14%nat ∈ completedRules)); [reflexivity |].
    cbn [negb orb andb].
    destruct (existsb class_roman (c :: pwd)) eqn:Hroman.
    + destruct (existsb (fun c => negb (class_roman c)) (c :: pwd)) eqn:Hother.
      * pose proof (highlightLoop_mixed _ Hroman Hother) as Hlen.
        apply Nat.ltb_lt in Hlen. rewrite Hlen. reflexivity.
      * apply existsb_false_Forall in Hother.
        assert (Forall (fun c => class_roman c = true) (c :: pwd)) as Hall.
        { eapply Forall_impl; [exact Hother |]. intros x Hx.
          apply negb_false_iff in Hx. exact Hx. }
        destruct (highlightLoop_all_roman _ Hall 0%nat [] []) as [key ->];
          [discriminate | reflexivity].
    + apply existsb_false_Forall in Hroman.
      rewrite (highlightLoop_no_roman _ Hroman). reflexivity.
Qed.




(** ** Sessions: what every reachable state satisfies *)

Lemma run_snoc h st trace ec :
  run h st (trace ++ [ec]) = step h (run h st trace) ec.
Proof. unfold run. rewrite fold_left_app. reflexivity. Qed.

Lemma reachable_ind (h : Host) (P : State.t → Prop) :
  (∀ clock, P (mount h clock)) →
  (∀ st ec, reachable h st → P st → P (step h st ec)) →
  ∀ st, reachable h st → P st.
Proof.
  intros Hmount Hstep st (clock & trace & ->).
  induction trace as [|ec trace IH] using rev_ind; [apply Hmount |].
  rewrite run_snoc. apply Hstep; [| exact IH]. exists clock, trace. reflexivity.
Qed.

Lemma reachable_step h st ec : reachable h st → reachable h (step h st ec).
Proof.
  intros (clock & trace & ->). exists clock, (trace ++ [ec]).
  symmetry. apply run_snoc.
Qed.

Lemma ruleEffect_frame h clock st :
  State.password (ruleEffect h clock st) = State.password st
  ∧ State.liveData (ruleEffect h clock st) = State.liveData st
  ∧ State.wordleState (ruleEffect h clock st) = State.wordleState st
  ∧ State.wordleError (ruleEffect h clock st) = State.wordleError st
  ∧ State.wordrowCompleted (ruleEffect h clock st) = State.wordrowCompleted st
  ∧ State.showPassword (ruleEffect h clock st) = State.showPassword st.
Proof.
  unfold ruleEffect. cbv zeta.
  generalize (evaluate h clock (State.liveData st) (State.password st)) as ev.
  intros ev. destruct (_ =? _)%nat; repeat split.
Qed.

Lemma ruleEffect_maxVisibleRule h clock st :
  State.maxVisibleRule (ruleEffect h clock st)
  = updateMaxVisibleRule 25 (State.maxVisibleRule st) (State.password st)
      (newCompletedRules
         (evaluate h clock (State.liveData st) (State.password st))).
Proof.
  unfold ruleEffect. cbv zeta. rewrite rules_length.
  generalize (evaluate h clock (State.liveData st) (State.password st)) as ev.
  intros ev. destruct (_ =? _)%nat; reflexivity.
Qed.

Lemma handle_display h e st :
  State.completedRules (handle h e st) = State.completedRules st
  ∧ State.validationFeedback (handle h e st) = State.validationFeedback st
  ∧ State.maxVisibleRule (handle h e st) = State.maxVisibleRule st.
Proof.
  destruct e as [value | | [ld|] | inputs | value | response | |];
    try (repeat split; reflexivity).
  - unfold handle, handleRefreshData. cbn [State.liveData State.setIsLoadingData].
    destruct (State.liveData st); repeat split.
  - unfold handle, handleWordleGuess.
    destruct (State.liveData st); [| repeat split].
    destruct (_ || _); [repeat split |]. destruct (negb _); repeat split.
Qed.









Lemma initialWordle_invariant h st :
  State.wordleState st = initialWordleState → wordleInvariant h st.
Proof.
  intros Hws. unfold wordleInvariant. rewrite Hws. cbn.
  repeat split; try lia; try discriminate; try constructor.
  intros Hne. destruct Hne. reflexivity.
Qed.

Lemma handle_wordleInvariant h e st :
  wordleInvariant h st → wordleInvariant h (handle h e st).
Proof.
  intros Hinv.
  destruct e as [value | | [ld|] | inputs | value | response | |];
    try exact Hinv.
  - apply initialWordle_invariant. reflexivity.
  - unfold handle, handleRefreshData. cbn [State.liveData State.setIsLoadingData].
    destruct (State.liveData st) as [ld|] eqn:Hld.
    + apply initialWordle_invariant. reflexivity.
    + unfold wordleInvariant in *.
      cbn [State.wordleState State.liveData State.setIsLoadingData].
      rewrite Hld in *. exact Hinv.
  - destruct Hinv as (Hmax & Hlen & Hover & _ & Hlive & Hraw).
    unfold handle, changeCurrentGuess, wordleInvariant.
    cbn [State.wordleState State.liveData State.setWordleError State.setWordleState
         guesses currentGuess gameWon gameOver maxGuesses].
    repeat split; try assumption; try apply Hover.
    rewrite length_take. lia.
  - unfold handle, handleWordleGuess.
    destruct (State.liveData st) as [ld|] eqn:Hld; [| exact Hinv].
    destruct (gameOver (State.wordleState st)) eqn:Hgo; [exact Hinv |].
    destruct (length (currentGuess (State.wordleState st)) =? 5)%nat eqn:H5;
      [| exact Hinv].
    cbn [orb negb].
    destruct (checkDutchWord _ _ _); cbn [negb]; [| exact Hinv].
    destruct Hinv as (Hmax & Hlen & Hover & Hcur & Hlive & Hraw).
    unfold wordleInvariant.
    cbn [State.wordleState State.liveData State.setWordleError State.setWordleState
         guesses currentGuess gameWon gameOver maxGuesses].
    rewrite Hld, Hmax, length_app. cbn [length].
    assert (length (guesses (State.wordleState st)) < 6)%nat as Hlt.
    { destruct (decide (length (guesses (State.wordleState st)) = 6%nat)) as [H6|];
        [| lia].
      assert (gameOver (State.wordleState st) = true) by (apply Hover; auto).
      congruence. }
    apply Nat.eqb_eq in H5.
    split; [reflexivity |]. split; [lia |]. split; [| split; [lia | split; [eauto |]]].
    + rewrite orb_true_iff, Nat.leb_le. split; intros [? | ?]; auto; right; lia.
    + apply Forall_app. split; [exact Hraw |]. repeat constructor. eauto.
  - apply initialWordle_invariant. reflexivity.
Qed.

(** X12.  In every state of a session the round allows six guesses and
    holds at most six; it is over exactly when it is won or six guesses
    are recorded; the entry has at most five code units; guesses are only
    recorded while live data exist; and every recorded guess is the
    uppercase form of a five-unit entry. *)
Theorem session_wordle_invariant (h : Host) (st : State.t) :
  reachable h st → wordleInvariant h st.
Proof.
  revert st. apply (reachable_ind h).
  - intros clock. unfold mount, wordleInvariant.
    destruct (ruleEffect_frame h clock State.init) as (_ & -> & -> & _).
    apply (initialWordle_invariant h State.init). reflexivity.
  - intros st0 [e clock] _ Hinv. unfold step. cbn [fst snd].
    pose proof (handle_wordleInvariant h e st0 Hinv) as Hinv'.
    destruct (depsChanged e st0 (handle h e st0)); [| exact Hinv'].
    unfold wordleInvariant.
    destruct (ruleEffect_frame h clock (handle h e st0)) as (_ & -> & -> & _).
    exact Hinv'.
Qed.

(** A session in which the word WATER is guessed. *)
Lemma session_wordle_invariant_witness :
  wordleInvariant asciiHost
    (run asciiHost (mount asciiHost clockNoon)
       [ (FetchDataSettled (Some exampleLiveData), clockNoon);
         (ChangeCurrentGuess (lit "water"), clockNoon);
         (SubmitGuess (FetchArray [EntryWoord (lit "water")]), clockNoon) ])
  ∧ gameWon
      (State.wordleState
         (run asciiHost (mount asciiHost clockNoon)
            [ (FetchDataSettled (Some exampleLiveData), clockNoon);
              (ChangeCurrentGuess (lit "water"), clockNoon);
              (SubmitGuess (FetchArray [EntryWoord (lit "water")]), clockNoon) ]))
    = true.
Proof.
  split; [| vm_compute; reflexivity].
  apply session_wordle_invariant. exists clockNoon. eexists. reflexivity.
Defined.

Lemma completed_plain h clock password (i : nat) :
  i ∈ newCompletedRules (evaluate h clock None password) → i ∈ plainRuleIds.
Proof.
  intros Hin. apply evaluate_completed in Hin as (rule & Hrule & <- & Hreach & _).
  unfold reaches in Hreach. rewrite orb_false_r in Hreach.
  apply negb_true_iff in Hreach.
  assert (In (id rule, requiresLiveData rule) catalogShape) as Hshape.
  { rewrite <- (rules_shape h clock None).
    apply (in_map (fun rule => (id rule, requiresLiveData rule))), Hrule. }
  rewrite Hreach in Hshape. unfold plainRuleIds.
  apply elem_of_list_to_set, list_elem_of_In.
  apply (in_map fst _ (id rule, false)). apply filter_In. split; [exact Hshape | reflexivity].
Qed.

(** X13.  Without live data at most 18 of the 25 rules can be satisfied,
    so the game cannot be completed; in every state of a session a set
    completion flag goes with live data being present. *)
Theorem completion_needs_context (h : Host) :
  (∀ clock password,
     (size (newCompletedRules (evaluate h clock None password)) ≤ 18)%nat)
  ∧ ∀ st, reachable h st →
          State.gameComplete st = true → is_Some (State.liveData st).
Proof.
  assert (∀ clock password,
            (size (newCompletedRules (evaluate h clock None password)) ≤ 18)%nat)
    as Hsize.
  { intros clock password.
    change 18%nat with (size plainRuleIds).
    apply subseteq_size. intros i. apply completed_plain. }
  split; [exact Hsize |].
  apply (reachable_ind h
           (fun st => State.gameComplete st = true → is_Some (State.liveData st))).
  - intros clock. unfold mount. rewrite ruleEffect_gameComplete.
    cbn [State.liveData State.password State.gameComplete State.init].
    pose proof (Hsize clock []) as Hle.
    destruct (Nat.eqb_spec (size (newCompletedRules (evaluate h clock None []))) 25);
      [lia | discriminate].
  - intros st0 [e clock] _ Hinv. unfold step. cbn [fst snd].
    assert (is_Some (State.liveData st0) → is_Some (State.liveData (handle h e st0)))
      as Hkeep.
    { intros [ld Hld].
      destruct e as [value | | [ld'|] | inputs | value | response | |];
        try (eexists; exact Hld); try (eexists; reflexivity).
      - unfold handle, handleRefreshData.
        cbn [State.liveData State.setIsLoadingData]. rewrite Hld. eexists. reflexivity.
      - unfold handle, handleWordleGuess. rewrite Hld.
        destruct (_ || _); [eexists; exact Hld |].
        destruct (negb _); eexists; exact Hld. }
    destruct (depsChanged e st0 (handle h e st0)).
    + rewrite ruleEffect_gameComplete, handle_gameComplete.
      destruct (ruleEffect_frame h clock (handle h e st0)) as (_ & -> & _).
      destruct (State.liveData (handle h e st0)) as [ld|] eqn:Hld; [eauto |].
      pose proof (Hsize clock (State.password (handle h e st0))) as Hle.
      destruct (Nat.eqb_spec
                  (size (newCompletedRules
                           (evaluate h clock None (State.password (handle h e st0)))))
                  25); [lia |].
      cbn [orb]. intros Hdone. specialize (Hinv Hdone).
      apply Hkeep in Hinv. exact Hinv.
    + rewrite handle_gameComplete. intros Hdone. apply Hkeep, Hinv, Hdone.
Qed.

(** The winning candidate typed before the live data arrive, and after. *)
Lemma completion_needs_context_witness :
  State.gameComplete
    (run asciiHost (mount asciiHost clockNoon)
       [ (ChangePassword winningPassword, clockEvening) ]) = false
  ∧ is_Some
      (State.liveData
         (run asciiHost (mount asciiHost clockNoon)
            [ (FetchDataSettled (Some exampleLiveData), clockNoon);
              (ChangePassword winningPassword, clockEvening) ])).
Proof.
  split; [vm_compute; reflexivity |].
  apply (proj2 (completion_needs_context asciiHost)).
  - exists clockNoon. eexists. reflexivity.
  - vm_compute. reflexivity.
Defined.

Lemma step_liveData h st e clock :
  State.liveData (step h st (e, clock)) = State.liveData (handle h e st).
Proof.
  unfold step. cbn [fst snd]. destruct (depsChanged e st (handle h e st));
    [| reflexivity].
  destruct (ruleEffect_frame h clock (handle h e st)) as (_ & -> & _). reflexivity.
Qed.

Lemma sameDay_trans (a b c : LiveData) : sameDay a b → sameDay b c → sameDay a c.
Proof.
  unfold sameDay. intros (-> & -> & -> & -> & -> & ->) Hbc. exact Hbc.
Qed.

Lemma handle_liveData_noFetch h e st :
  (∀ ld, e ≠ FetchDataSettled (Some ld)) →
  match State.liveData st with
  | None => State.liveData (handle h e st) = None
  | Some ld =>
      ∃ ld', State.liveData (handle h e st) = Some ld' ∧ sameDay ld ld'
  end.
Proof.
  intros Hfetch.
  assert (∀ ld, sameDay ld ld) as Hrefl by (intros ld; repeat split).
  destruct e as [value | | [ld|] | inputs | value | response | |];
    try (destruct (State.liveData st) as [ld0|] eqn:Hld; cbn; rewrite ?Hld; eauto; fail).
  - destruct (Hfetch ld). reflexivity.
  - unfold handle, handleRefreshData. cbn [State.liveData State.setIsLoadingData].
    destruct (State.liveData st) as [ld0|] eqn:Hld.
    + eexists. split; [reflexivity |]. repeat split.
    + cbn [State.liveData State.setIsLoadingData]. exact Hld.
  - unfold handle, handleWordleGuess.
    destruct (State.liveData st) as [ld0|] eqn:Hld; [| exact Hld].
    destruct (_ || _); [rewrite Hld; eauto |].
    destruct (negb _); cbn; rewrite Hld; eauto.
Qed.

(** X14.  Live data enter the state only through a fetch that succeeds:
    over a sequence of events without one, absent live data stay absent,
    and live data that are present stay present with the same day of the
    year, day of the week, zodiac symbol, moon phase and chess puzzle,
    however often they are refreshed. *)
Theorem context_only_from_fetch (h : Host) (trace : list (Event * Clock))
    (st : State.t) :
  noFetch trace →
  (State.liveData st = None → State.liveData (run h st trace) = None)
  ∧ (∀ ld, State.liveData st = Some ld →
           ∃ ld', State.liveData (run h st trace) = Some ld' ∧ sameDay ld ld').
Proof.
  intros Htrace. revert st.
  induction Htrace as [|[e clock] trace He _ IH]; intros st.
  - split; [auto |]. intros ld Hld. exists ld. split; [exact Hld | repeat split].
  - unfold run. cbn [fold_left]. fold (run h (step h st (e, clock)) trace).
    pose proof (handle_liveData_noFetch h e st He) as Hstep.
    rewrite <- step_liveData with (clock := clock) in Hstep.
    destruct (IH (step h st (e, clock))) as [Hnone Hsome].
    split.
    + intros Hld. rewrite Hld in Hstep. apply Hnone, Hstep.
    + intros ld Hld. rewrite Hld in Hstep. destruct Hstep as (ld1 & Hld1 & Hsame1).
      destruct (Hsome ld1 Hld1) as (ld2 & Hld2 & Hsame2).
      exists ld2. split; [exact Hld2 | eapply sameDay_trans; eassumption].
Qed.

(** Two refreshes, a guess and a failed fetch after the data arrived. *)
Lemma context_only_from_fetch_witness :
  ∃ ld',
    State.liveData
      (run asciiHost
         (run asciiHost (mount asciiHost clockNoon)
            [ (FetchDataSettled (Some exampleLiveData), clockNoon) ])
         [ (RefreshData {| fetchedTemperature := 21; locationDraw := 4;
                           wordDraw := 7; problemDraw := 2 |}, clockOne);
           (ChangeCurrentGuess (lit "water"), clockOne);
           (FetchDataSettled None, clockOne);
           (RefreshData {| fetchedTemperature := 3; locationDraw := 1;
                           wordDraw := 0; problemDraw := 5 |}, clockEvening) ])
    = Some ld'
    ∧ sameDay exampleLiveData ld'.
Proof.
  apply (context_only_from_fetch asciiHost).
  - repeat constructor; cbn; intros ld; discriminate.
  - vm_compute. reflexivity.
Defined.

Lemma step_wordrowCompleted h st e clock :
  State.wordrowCompleted (step h st (e, clock)) = true ↔
  State.wordrowCompleted st = true ∨ e = PuzzleCompleteMessage.
Proof.
  assert (State.wordrowCompleted (step h st (e, clock))
          = State.wordrowCompleted (handle h e st)) as ->.
  { unfold step. cbn [fst snd]. destruct (depsChanged e st (handle h e st));
      [| reflexivity].
    destruct (ruleEffect_frame h clock (handle h e st)) as (_ & _ & _ & _ & -> & _).
    reflexivity. }
  destruct e as [value | | [ld|] | inputs | value | response | |];
    try (split; [intros Hdone; left; exact Hdone | intros [Hdone | [=]]; exact Hdone]).
  - unfold handle, handleRefreshData. cbn [State.liveData State.setIsLoadingData].
    destruct (State.liveData st);
      (split; [intros Hdone; left; exact Hdone | intros [Hdone | [=]]; exact Hdone]).
  - unfold handle, handleWordleGuess. destruct (State.liveData st);
      [destruct (_ || _); [| destruct (negb _)] |];
      (split; [intros Hdone; left; exact Hdone | intros [Hdone | [=]]; exact Hdone]).
  - split; [intros _; right; reflexivity | intros _; reflexivity].
Qed.

(** X15.  The flag of the second puzzle is set by the completion message
    of the puzzle frame and by nothing else, and nothing clears it: after
    a sequence of events it is set exactly when it was set before or the
    sequence holds such a message. *)
Theorem wordrowCompleted_latch (h : Host) (trace : list (Event * Clock))
    (st : State.t) :
  State.wordrowCompleted (run h st trace) = true ↔
  State.wordrowCompleted st = true
  ∨ ∃ clock, In (PuzzleCompleteMessage, clock) trace.
Proof.
  revert st. induction trace as [|[e clock] trace IH]; intros st.
  - split; [auto |]. intros [Hdone | (clock & [])]. exact Hdone.
  - unfold run. cbn [fold_left]. fold (run h (step h st (e, clock)) trace).
    rewrite IH, step_wordrowCompleted. split.
    + intros [[Hdone | ->] | (clock' & Hin)]; [auto | |].
      * right. exists clock. left. reflexivity.
      * right. exists clock'. right. exact Hin.
    + intros [Hdone | (clock' & [[= -> ->] | Hin])]; [auto | auto |].
      right. exists clock'. exact Hin.
Qed.

Lemma completed_14 h clock liveData password :
  14%nat ∈ newCompletedRules (evaluate h clock liveData password) ↔
  rule14_validator password = true.
Proof.
  apply (evaluate_completed_rule h clock liveData password (mkRule 14 rule14_validator)).
  - do 13 right. left. reflexivity.
  - reflexivity.
Qed.








Lemma someWoord_true h word (data : list Entry) :
  someWoord h word data = Some true ↔
  ∃ pre woord post,
    data = pre ++ EntryWoord woord :: post
    ∧ Forall (fun entry => entry ≠ EntryThrows) pre
    ∧ woord ≠ []
    ∧ toLowerCase h woord = toLowerCase h word.
Proof.
  induction data as [|entry data IH].
  - split; [discriminate |]. intros ([|? ?] & ? & ? & [=] & _).
  - split.
    + intros Hsome. destruct entry as [| | [|c woord]]; cbn [someWoord] in Hsome.
      * discriminate.
      * apply IH in Hsome as (pre & woord & post & -> & Hpre & Hne & Heq).
        exists (EntryFalsy :: pre), woord, post.
        split; [reflexivity |].
        split; [constructor; [discriminate | exact Hpre] | split; assumption].
      * apply IH in Hsome as (pre & woord & post & -> & Hpre & Hne & Heq).
        exists (EntryWoord [] :: pre), woord, post.
        split; [reflexivity |].
        split; [constructor; [discriminate | exact Hpre] | split; assumption].
      * destruct (str_eqb _ _) eqn:Heqb.
        -- apply str_eqb_eq in Heqb. exists [], (c :: woord), data.
           split; [reflexivity |]. split; [constructor |].
           split; [discriminate | exact Heqb].
        -- apply IH in Hsome as (pre & woord' & post & -> & Hpre & Hne & Heq).
           exists (EntryWoord (c :: woord) :: pre), woord', post.
           split; [reflexivity |].
        split; [constructor; [discriminate | exact Hpre] | split; assumption].
    + intros (pre & woord & post & Hdata & Hpre & Hne & Heq).
      destruct pre as [|first pre].
      * injection Hdata as -> ->. destruct woord as [|c woord]; [congruence |].
        cbn [someWoord]. apply str_eqb_eq in Heq. rewrite Heq. reflexivity.
      * injection Hdata as -> ->. apply Forall_cons in Hpre as [Hfirst Hpre].
        assert (someWoord h word (pre ++ EntryWoord woord :: post) = Some true)
          as Hrest by (apply IH; eauto 8).
        destruct first as [| | [|c first]]; cbn [someWoord]; [congruence | auto ..].
        destruct (str_eqb _ _); [reflexivity | exact Hrest].
Qed.

(** X18.  The dictionary check accepts a word exactly when the service
    answers with an array in which some entry has a non-empty woord equal
    to the word after both are converted to lowercase, and no entry before
    it makes the comparison throw.  A failed lookup, an answer that is not
    an array and an entry that throws before the match all reject. *)
Theorem checkDutchWord_accepts (h : Host) (response : FetchResult)
    (word : jsstring) :
  checkDutchWord h response word = true ↔
  ∃ pre woord post,
    response = FetchArray (pre ++ EntryWoord woord :: post)
    ∧ Forall (fun entry => entry ≠ EntryThrows) pre
    ∧ woord ≠ []
    ∧ toLowerCase h woord = toLowerCase h word.
Proof.
  destruct response as [| | data]; cbn [checkDutchWord].
  - split; [discriminate | intros (? & ? & ? & [=] & _)].
  - split; [discriminate | intros (? & ? & ? & [=] & _)].
  - transitivity (someWoord h word data = Some true).
    + destruct (someWoord h word data) as [[|]|]; cbn; split; congruence.
    + rewrite someWoord_true. split.
      * intros (pre & woord & post & -> & Hrest). eauto 8.
      * intros (pre & woord & post & [= ->] & Hrest). eauto 8.
Qed.

Lemma getLetterStatus_green h ld (position : nat) guess :
  getLetterStatus h (Some ld) position guess = BgGreen500 ↔
  toUpperCase h guess !! position = toUpperCase h (wordleWord ld) !! position.
Proof.
  unfold getLetterStatus, charAt. cbv zeta.
  destruct (toUpperCase h guess !! position) as [a|],
           (toUpperCase h (wordleWord ld) !! position) as [b|];
    cbn [opt_char_eqb].
  - destruct (char_eqb a b) eqn:Hab.
    + apply char_eqb_eq in Hab as ->. split; reflexivity.
    + split.
      * intros Hgreen. destruct (includes _ _); [| discriminate].
        destruct (_ <? _)%nat; discriminate.
      * intros [= ->]. rewrite char_eqb_refl in Hab. discriminate.
  - split; [| discriminate]. intros Hgreen.
    destruct (includes _ _); [| discriminate]. destruct (_ <? _)%nat; discriminate.
  - split; [| discriminate]. intros Hgreen.
    destruct (includes _ _); [| discriminate]. destruct (_ <? _)%nat; discriminate.
  - split; reflexivity.
Qed.

(** X19.  A cell of the grid is green exactly when guess and target, in
    uppercase, have the same code unit at its position, or both end
    before it; so for a guess and a target of five code units the row is
    green throughout exactly when the guess is the target, which is when
    the handler records a win. *)
Theorem green_row_iff_win (h : Host) (ld : LiveData) (guess : jsstring) :
  length (toUpperCase h guess) = 5%nat →
  length (toUpperCase h (wordleWord ld)) = 5%nat →
  (∀ position,
     getLetterStatus h (Some ld) position guess = BgGreen500 ↔
     toUpperCase h guess !! position = toUpperCase h (wordleWord ld) !! position)
  ∧ (rowStatus h (Some ld) guess = replicate 5 BgGreen500 ↔
     str_eqb (toUpperCase h guess) (toUpperCase h (wordleWord ld)) = true).
Proof.
  intros HG HT. split; [intros position; apply getLetterStatus_green |].
  rewrite str_eqb_eq. unfold rowStatus. split.
  - intros Hrow. apply list_eq. intros position.
    destruct (decide (position < 5)%nat) as [Hlt | Hge].
    + apply getLetterStatus_green.
      assert (map (fun colIndex => getLetterStatus h (Some ld) colIndex guess) (seq 0 5)
                !! position = Some BgGreen500) as Hcell.
      { rewrite Hrow. apply lookup_replicate. auto. }
      rewrite list_lookup_fmap, lookup_seq_lt in Hcell by exact Hlt.
      injection Hcell as Hcell. exact Hcell.
    + rewrite !lookup_ge_None_2 by lia. reflexivity.
  - intros Heq. apply list_eq. intros position.
    destruct (decide (position < 5)%nat) as [Hlt | Hge].
    + rewrite list_lookup_fmap, lookup_seq_lt by exact Hlt.
      cbn [fmap option_fmap option_map Nat.add].
      rewrite (proj2 (getLetterStatus_green h ld position guess))
        by (rewrite Heq; reflexivity).
      symmetry. apply lookup_replicate. auto.
    + rewrite !lookup_ge_None_2; [reflexivity | |].
      * rewrite length_replicate. lia.
      * rewrite length_map, length_seq. lia.
Qed.

(** The target WATER guessed, and missed by one letter. *)
Lemma green_row_iff_win_witness :
  rowStatus asciiHost (Some exampleLiveData) (lit "water") = replicate 5 BgGreen500
  ∧ rowStatus asciiHost (Some exampleLiveData) (lit "wafer") ≠ replicate 5 BgGreen500.
Proof.
  destruct (green_row_iff_win asciiHost exampleLiveData (lit "water") eq_refl eq_refl)
    as [_ Hwater].
  split; [apply Hwater; reflexivity |].
  intros Hrow. discriminate Hrow.
Defined.

Lemma class_roman_upper (c : char16) : class_roman c = true → class_upper c = true.
Proof.
  unfold class_roman, one_of. intros Hroman.
  apply existsb_exists in Hroman as (x & Hin & Hx). apply char_eqb_eq in Hx as ->.
  cbn in Hin. repeat (destruct Hin as [<- | Hin]; [reflexivity |]). destruct Hin.
Qed.

Lemma elements_capitalised :
  Forall (fun element =>
            ∃ c rest, element = c :: rest ∧ class_upper c = true) elements.
Proof.
  apply Forall_forall. intros element Hin.
  assert (forallb (fun element => match element with
                                  | c :: _ => class_upper c
                                  | [] => false
                                  end) elements = true) as Hall
    by (vm_compute; reflexivity).
  rewrite forallb_forall in Hall. apply list_elem_of_In, Hall in Hin.
  destruct element as [|c rest]; [discriminate |]. eauto.
Qed.

(** X20.  Whatever the host, the clock and the live data, a candidate
    that satisfies the element rule 13 or the Roman numeral rule 14
    satisfies the capital letter rule 2: every element symbol of the
    table begins with a capital, and the Roman letters are capitals. *)
Theorem rule13_rule14_imply_rule2 (h : Host) (clock : Clock)
    (liveData : option LiveData) (password : jsstring) :
  13%nat ∈ newCompletedRules (evaluate h clock liveData password)
  ∨ 14%nat ∈ newCompletedRules (evaluate h clock liveData password) →
  2%nat ∈ newCompletedRules (evaluate h clock liveData password).
Proof.
  intros Hdone.
  apply (evaluate_completed_rule h clock liveData password
           (mkRule 2 (fun pwd => test_class class_upper pwd)));
    [right; left; reflexivity | reflexivity |].
  cbn [validator mkRule]. unfold test_class. apply existsb_exists.
  destruct Hdone as [H13 | H14].
  - apply (evaluate_completed_rule h clock liveData password
             (mkRule 13 (fun pwd => some_included elements pwd))) in H13;
      [| do 12 right; left; reflexivity | reflexivity].
    cbn [validator mkRule] in H13. unfold some_included in H13.
    apply existsb_exists in H13 as (element & Hin & Hincl).
    pose proof elements_capitalised as Hcap. rewrite Forall_forall in Hcap.
    destruct (Hcap element (proj2 (list_elem_of_In _ _) Hin)) as (c & rest & -> & Hc).
    exists c. split; [| exact Hc].
    apply (includes_In password (c :: rest)); [exact Hincl | left; reflexivity].
  - apply completed_14, rule14_validator_spec in H14
      as (pre & run & post & -> & (Hne & Hroman & _) & _).
    destruct run as [|c run]; [congruence |].
    apply Forall_cons in Hroman as [Hc _].
    exists c. split; [| apply class_roman_upper, Hc].
    apply in_or_app. right. left. reflexivity.
Qed.

(** The symbol Fe alone, and the numeral XXXV alone. *)
Lemma rule13_rule14_imply_rule2_witness :
  2%nat ∈ newCompletedRules (evaluate asciiHost clockNoon None (lit "Fe"))
  ∧ 2%nat ∈ newCompletedRules (evaluate asciiHost clockNoon None (lit "XXXV")).
Proof.
  split; apply rule13_rule14_imply_rule2.
  - left. apply (evaluate_completed_rule asciiHost clockNoon None (lit "Fe")
                   (mkRule 13 (fun pwd => some_included elements pwd)));
      [do 12 right; left; reflexivity | reflexivity | vm_compute; reflexivity].
  - right. apply completed_14. vm_compute. reflexivity.
Defined.

Lemma initialWordle_winInvariant h st :
  State.wordleState st = initialWordleState → winInvariant h st.
Proof.
  intros Hws ld _. rewrite Hws. cbn. split; [auto | discriminate].
Qed.

Lemma handle_winInvariant h e st :
  wordleInvariant h st → winInvariant h st → winInvariant h (handle h e st).
Proof.
  intros Hround Hwin.
  destruct e as [value | | [ld|] | inputs | value | response | |];
    try exact Hwin.
  - apply initialWordle_winInvariant. reflexivity.
  - unfold handle, handleRefreshData. cbn [State.liveData State.setIsLoadingData].
    destruct (State.liveData st) as [ld|] eqn:Hld.
    + apply initialWordle_winInvariant. reflexivity.
    + intros ld. cbn [State.wordleState State.liveData State.setIsLoadingData].
      rewrite Hld. discriminate.
  - unfold handle, handleWordleGuess.
    destruct (State.liveData st) as [ld|] eqn:Hld; [| exact Hwin].
    destruct (gameOver (State.wordleState st)) eqn:Hgo; [exact Hwin |].
    destruct (length (currentGuess (State.wordleState st)) =? 5)%nat; [| exact Hwin].
    cbn [orb negb].
    destruct (checkDutchWord _ _ _); cbn [negb]; [| exact Hwin].
    intros ld'.
    cbn [State.wordleState State.liveData State.setWordleError State.setWordleState
         guesses gameWon].
    rewrite Hld. intros [= <-].
    destruct Hround as (_ & _ & Hover & _).
    assert (gameWon (State.wordleState st) = false) as Hnot.
    { destruct (gameWon (State.wordleState st)); [| reflexivity].
      rewrite <- Hgo. symmetry. apply Hover. left. reflexivity. }
    destruct (Hwin ld Hld) as [Hfresh _]. specialize (Hfresh Hnot).
    split.
    + intros Hne Hin. apply in_app_or in Hin as [Hin | [Heq | []]]; [auto |].
      rewrite Heq in Hne. rewrite (proj2 (str_eqb_eq _ _) eq_refl) in Hne.
      discriminate.
    + intros Heq. apply str_eqb_eq in Heq. rewrite Heq.
      exists (guesses (State.wordleState st)). split; [reflexivity | exact Hfresh].
  - apply initialWordle_winInvariant. reflexivity.
Qed.

Lemma reachable_round h st :
  reachable h st → wordleInvariant h st ∧ winInvariant h st.
Proof.
  revert st. apply (reachable_ind h).
  - intros clock. unfold mount, wordleInvariant, winInvariant.
    destruct (ruleEffect_frame h clock State.init) as (_ & -> & -> & _).
    split.
    + apply (initialWordle_invariant h State.init). reflexivity.
    + apply (initialWordle_winInvariant h State.init). reflexivity.
  - intros st0 [e clock] _ [Hround Hwin]. unfold step. cbn [fst snd].
    pose proof (handle_wordleInvariant h e st0 Hround) as Hround'.
    pose proof (handle_winInvariant h e st0 Hround Hwin) as Hwin'.
    destruct (depsChanged e st0 (handle h e st0)); [| split; assumption].
    unfold wordleInvariant, winInvariant.
    destruct (ruleEffect_frame h clock (handle h e st0)) as (_ & -> & -> & _).
    split; assumption.
Qed.

(** X21.  In every state of a session with live data, the round is won
    exactly when the target word, in uppercase, is among the recorded
    guesses; the target can only be the last recorded guess, so nothing
    is recorded after a win. *)
Theorem session_win_iff_target_guessed (h : Host) (st : State.t) (ld : LiveData) :
  reachable h st →
  State.liveData st = Some ld →
  (gameWon (State.wordleState st) = true ↔
   In (toUpperCase h (wordleWord ld)) (guesses (State.wordleState st)))
  ∧ ∀ earlier later,
      guesses (State.wordleState st)
        = earlier ++ toUpperCase h (wordleWord ld) :: later →
      later = [] ∧ ¬ In (toUpperCase h (wordleWord ld)) earlier.
Proof.
  intros Hreach Hld. destruct (reachable_round h st Hreach) as [_ Hwin].
  destruct (Hwin ld Hld) as [Hlost Hwon].
  destruct (gameWon (State.wordleState st)).
  - destruct (Hwon eq_refl) as (won & Hguesses & Hfresh). rewrite Hguesses.
    split.
    + split; [| reflexivity]. intros _. apply in_or_app. right. left. reflexivity.
    + intros earlier later Heq.
      destruct later as [|x later _] using rev_ind.
      * apply app_inj_tail in Heq as [-> _]. auto.
      * exfalso. apply Hfresh.
        change (earlier ++ toUpperCase h (wordleWord ld) :: later ++ [x])
          with (earlier ++ (toUpperCase h (wordleWord ld) :: later) ++ [x]) in Heq.
        rewrite app_assoc in Heq. apply app_inj_tail in Heq as [-> _].
        apply in_or_app. right. left. reflexivity.
  - specialize (Hlost eq_refl). split.
    + split; [discriminate | intros Hin; destruct (Hlost Hin)].
    + intros earlier later Heq. exfalso. apply Hlost. rewrite Heq.
      apply in_or_app. right. left. reflexivity.
Qed.

(** A miss, then the target WATER. *)
Lemma session_win_iff_target_guessed_witness :
  gameWon
    (State.wordleState
       (run asciiHost (mount asciiHost clockNoon)
          [ (FetchDataSettled (Some exampleLiveData), clockNoon);
            (ChangeCurrentGuess (lit "wafer"), clockNoon);
            (SubmitGuess (FetchArray [EntryWoord (lit "wafer")]), clockNoon);
            (ChangeCurrentGuess (lit "water"), clockOne);
            (SubmitGuess (FetchArray [EntryWoord (lit "water")]), clockOne);
            (ChangeCurrentGuess (lit "wagen"), clockOne);
            (SubmitGuess (FetchArray [EntryWoord (lit "wagen")]), clockOne) ]))
  = true.
Proof.
  apply (session_win_iff_target_guessed asciiHost _ exampleLiveData).
  - exists clockNoon. eexists. reflexivity.
  - vm_compute. reflexivity.
  - vm_compute. right. left. reflexivity.
Defined.

(** X22.  No event lowers the number of visible rules unless it leaves
    the password empty. *)
Theorem step_visible_ratchet (h : Host) (st : State.t) (ec : Event * Clock) :
  State.password (step h st ec) ≠ [] →
  (State.maxVisibleRule st ≤ State.maxVisibleRule (step h st ec))%nat.
Proof.
  destruct ec as [e clock]. unfold step. cbn [fst snd].
  destruct (handle_display h e st) as (_ & _ & Hmax).
  destruct (depsChanged e st (handle h e st)); [| rewrite Hmax; lia].
  rewrite ruleEffect_maxVisibleRule.
  destruct (ruleEffect_frame h clock (handle h e st)) as (-> & _).
  rewrite Hmax. unfold updateMaxVisibleRule.
  destruct (State.password (handle h e st)) as [|c password]; [congruence |].
  intros _. cbn [length Nat.ltb Nat.leb]. lia.
Qed.

(** A password that satisfies fewer rules than the one before it. *)
Lemma step_visible_ratchet_witness :
  (State.maxVisibleRule
     (run asciiHost (mount asciiHost clockNoon)
        [ (ChangePassword (lit "Geheim12!"), clockNoon) ])
   ≤ State.maxVisibleRule
       (step asciiHost
          (run asciiHost (mount asciiHost clockNoon)
             [ (ChangePassword (lit "Geheim12!"), clockNoon) ])
          (ChangePassword (lit "g"), clockOne)))%nat.
Proof.
  apply step_visible_ratchet. vm_compute. discriminate.
Defined.


